(** * Flow Index: the cycle inference and prediction engine

    A shallow embedding of the pure functions of [utils/dateUtils.ts], of the
    prediction map and the month grid of [components/CalendarView.tsx], of
    the phase classifier of [components/CycleWheel.tsx], of the log and
    cycle store of [services/storageService.ts] and of the handlers of
    [App.tsx] that feed them, together with the properties the
    specification states about them and further properties of the code.

    Conventions of the embedding:
    - a JavaScript [Date] is its time value, a [Z] of milliseconds since the
      epoch (UTC); the calendar algorithms are those of ECMAScript (Day,
      DayFromYear, YearFromTime, MonthFromTime, DateFromTime, MakeDay);
    - the host time zone is a parameter [zone] of every function that reads
      the local clock ([getTimezoneOffset], [getDate], [setDate]);
    - an ISO date string [YYYY-MM-DD] is the record of its three numbers;
    - the stored lists and the state of the component are the fields of one
      record, passed through the handlers;
    - day counts ([Cycle.length], settings) are integers; the fractional
      arithmetic of the weighted average is IEEE binary64, as in the host.
      (Measured lengths are whole-day differences and the settings form
      stores the result of [parseInt].) *)

From Stdlib Require Import ZArith List Lia Bool Sorted.
From Stdlib Require Import Floats.
From stdpp Require Import base decidable countable list sorting gmap.

Local Open Scope Z_scope.

(** ** ECMAScript calendar arithmetic *)

Module JS.

Definition msPerDay : Z := 86400000.
Definition msPerMinute : Z := 60000.

(** [Day(t) = floor(t / msPerDay)], [TimeWithinDay(t) = t modulo msPerDay]. *)
Definition Day (t : Z) : Z := t / msPerDay.
Definition TimeWithinDay (t : Z) : Z := t mod msPerDay.

Definition isLeap (y : Z) : bool :=
  (y mod 4 =? 0) && (negb (y mod 100 =? 0) || (y mod 400 =? 0)).

Definition DaysInYear (y : Z) : Z := if isLeap y then 366 else 365.

(** Day number of the first day of year [y]. *)
Definition DayFromYear (y : Z) : Z :=
  365 * (y - 1970) + (y - 1969) / 4 - (y - 1901) / 100 + (y - 1601) / 400.

(** [YearFromTime]: the largest [y] with [DayFromYear y <= d].  The mean
    Gregorian year has 146097/400 days, which gives an estimate that is off
    by at most one. *)
Definition YearFromDay (d : Z) : Z :=
  let y := 1970 + (400 * d) / 146097 in
  if d <? DayFromYear y then y - 1
  else if DayFromYear (y + 1) <=? d then y + 1
  else y.

Definition DayWithinYear (d : Z) : Z := d - DayFromYear (YearFromDay d).

Definition InLeapYear (d : Z) : Z := if isLeap (YearFromDay d) then 1 else 0.

(** Day-within-year of the first day of month [m] (0 = January), for a year
    with leap-day count [L]. *)
Definition monthStart (L m : Z) : Z :=
  match m with
  | 0 => 0
  | 1 => 31
  | 2 => 59 + L
  | 3 => 90 + L
  | 4 => 120 + L
  | 5 => 151 + L
  | 6 => 181 + L
  | 7 => 212 + L
  | 8 => 243 + L
  | 9 => 273 + L
  | 10 => 304 + L
  | 11 => 334 + L
  | _ => 365 + L
  end.

(** The month table of ECMAScript's MonthFromTime. *)
Definition monthOfYearDay (L n : Z) : Z :=
  if n <? 31 then 0
  else if n <? 59 + L then 1
  else if n <? 90 + L then 2
  else if n <? 120 + L then 3
  else if n <? 151 + L then 4
  else if n <? 181 + L then 5
  else if n <? 212 + L then 6
  else if n <? 243 + L then 7
  else if n <? 273 + L then 8
  else if n <? 304 + L then 9
  else if n <? 334 + L then 10
  else 11.

Definition MonthFromDay (d : Z) : Z :=
  monthOfYearDay (InLeapYear d) (DayWithinYear d).

Definition DateFromDay (d : Z) : Z :=
  DayWithinYear d - monthStart (InLeapYear d) (MonthFromDay d) + 1.

(** [MakeDay(year, month, date)] with a 0-based month; [month] outside 0..11
    carries into the year and [date] outside the month carries into the
    neighbouring months, as in ECMAScript. *)
Definition MakeDay (year month date : Z) : Z :=
  let ym := year + month / 12 in
  let mn := month mod 12 in
  DayFromYear ym + monthStart (if isLeap ym then 1 else 0) mn + date - 1.

Definition MakeDate (day time : Z) : Z := day * msPerDay + time.

(** [WeekDay(t) = (Day(t) + 4) modulo 7], 0 for Sunday: the epoch was a
    Thursday. *)
Definition WeekDay (d : Z) : Z := (d + 4) mod 7.

End JS.

(** ** ISO dates *)

(** The string [YYYY-MM-DD]: [month] is 1-based, as it is written. *)
Record ISODate : Type := mkDate { year : Z; month : Z; day : Z }.

Definition daysInMonth (y m : Z) : Z :=
  match m with
  | 2 => if JS.isLeap y then 29 else 28
  | 4 | 6 | 9 | 11 => 30
  | _ => 31
  end.

(** The strings the date-only form denotes: four-digit year, a month and a
    day of that month. *)
Definition valid_date (d : ISODate) : bool :=
  (0 <=? year d) && (year d <=? 9999) &&
  (1 <=? month d) && (month d <=? 12) &&
  (1 <=? day d) && (day d <=? daysInMonth (year d) (month d)).

(** [new Date("YYYY-MM-DD").getTime()]: ECMAScript reads the date-only form
    as a UTC time, so the time value is UTC midnight of that date. *)
Definition Date_parse (s : ISODate) : Z :=
  JS.MakeDate (JS.MakeDay (year s) (month s - 1) (day s)) 0.

(** [new Date(t).toISOString().split('T')[0]]: the UTC calendar date. *)
Definition toISODate (t : Z) : ISODate :=
  let d := JS.Day t in
  mkDate (JS.YearFromDay d) (JS.MonthFromDay d + 1) (JS.DateFromDay d).

(** ** IEEE binary64 numbers *)

(** An integer as a JavaScript number (exact below 2^53). *)
Definition Z2F (z : Z) : float := SF2Prim (binary_normalize prec emax z 0 false).

(** [Math.round]: the nearest integer, a tie going towards +infinity.  The
    value of a finite double is [m * 2^e]; the rounding is computed on that
    exact value.  NaN and the infinities (which [Math.round] returns
    unchanged) have no integer image and are sent to 0. *)
Definition Math_round (x : float) : Z :=
  match Prim2SF x with
  | S754_finite s m e =>
      let n := if s then Z.neg m else Z.pos m in
      if 0 <=? e then n * 2 ^ e
      else (2 * n + 2 ^ (- e)) / 2 ^ (- e + 1)
  | _ => 0
  end.

(** ** Data model ([types.ts]) *)

Inductive FlowIntensity : Type := Light | Medium | Heavy | Spotting.

#[global] Instance FlowIntensity_eq_dec : EqDecision FlowIntensity.
Proof. solve_decision. Defined.

(** [DailyLog]: the engine reads [date] and [flow] only; the other fields
    (moods, symptoms, discharge, sex, notes, water, sleep, weight,
    temperature) are carried by the application and never inspected here.
    [flow] is optional and nullable: [None] stands for both. *)
Record DailyLog : Type := mkLog { date : ISODate; flow : option FlowIntensity }.

(** [Cycle]; [SimpleCycle] of [dateUtils.ts] is its structural supertype
    { startDate, length }. *)
Record Cycle : Type := mkCycle {
  startDate : ISODate;
  endDate : option ISODate;
  length : Z
}.

(** The cycle-relevant part of [UserSettings]. *)
Record UserSettings : Type := mkSettings {
  avgCycleLength : Z;
  avgPeriodLength : Z
}.

(** ** The host's local clock *)

Section Host.

(** The zone of the host: its offset from UTC in minutes, positive east of
    Greenwich, at a UTC time value ([true]) or at a local time value
    ([false]); ECMAScript's LocalTZA(t, isUTC), which is this offset in
    milliseconds. *)
Variable zone : Z -> bool -> Z.

Definition LocalTZA (t : Z) (isUTC : bool) : Z := zone t isUTC * JS.msPerMinute.
Definition LocalTime (t : Z) : Z := t + LocalTZA t true.
Definition UTC (t : Z) : Z := t - LocalTZA t false.

(** [Date.prototype.getTimezoneOffset], in minutes. *)
Definition getTimezoneOffset (t : Z) : Z := (t - LocalTime t) / JS.msPerMinute.

(** [Date.prototype.getDate]: the local day of the month. *)
Definition getDate (t : Z) : Z := JS.DateFromDay (JS.Day (LocalTime t)).

(** [Date.prototype.setDate(dt)]: the new time value. *)
Definition setDate (t dt : Z) : Z :=
  let tl := LocalTime t in
  let newDate :=
    JS.MakeDate (JS.MakeDay (JS.YearFromDay (JS.Day tl)) (JS.MonthFromDay (JS.Day tl)) dt)
                (JS.TimeWithinDay tl) in
  UTC newDate.

(** [new Date(year, monthIndex, day)]: local midnight; a year in 0..99 is
    taken in the twentieth century. *)
Definition Date_local (y monthIndex d : Z) : Z :=
  let yr := if (0 <=? y) && (y <=? 99) then 1900 + y else y in
  UTC (JS.MakeDate (JS.MakeDay yr monthIndex d) 0).

(** *** [utils/dateUtils.ts] *)

Definition formatDateISO (date : Z) : ISODate :=
  let offset := getTimezoneOffset date in
  let adjustedDate := date - offset * 60 * 1000 in
  toISODate adjustedDate.

Definition addDays (dateStr : ISODate) (days : Z) : ISODate :=
  let date := Date_parse dateStr in
  let date := setDate date (getDate date + days) in
  formatDateISO date.

(** [getFullYear], [getMonth] (0-based) and [getDay] (0 for Sunday), all in
    local time. *)
Definition getFullYear (t : Z) : Z := JS.YearFromDay (JS.Day (LocalTime t)).
Definition getMonth (t : Z) : Z := JS.MonthFromDay (JS.Day (LocalTime t)).
Definition getDay (t : Z) : Z := JS.WeekDay (JS.Day (LocalTime t)).

Definition getDaysInMonth (year month : Z) : Z :=
  getDate (Date_local year (month + 1) 0).

Definition getFirstDayOfMonth (year month : Z) : Z :=
  getDay (Date_local year month 1).

Definition isSameDay (d1 d2 : Z) : bool :=
  (getFullYear d1 =? getFullYear d2) &&
  (getMonth d1 =? getMonth d2) &&
  (getDate d1 =? getDate d2).

End Host.

(** [Math.ceil(x / d)] for an integer [x] and a positive [d]. *)
Definition ceil_div (x d : Z) : Z := - ((- x) / d).

Definition diffDays (date1Str date2Str : ISODate) : Z :=
  let d1 := Date_parse date1Str in
  let d2 := Date_parse date2Str in
  let diffTime := Z.abs (d2 - d1) in
  ceil_div diffTime (1000 * 60 * 60 * 24).

(** [Math.floor] of the quotient is [Z.div]. *)
Definition diffDaysBetween (d1 d2 : ISODate) : Z :=
  (Date_parse d2 - Date_parse d1) / (1000 * 3600 * 24).

(** *** Smart length estimator *)

Definition validLength (l : Z) : Prop := 21 <= l /\ l <= 45.

#[global] Instance validLength_dec l : Decision (validLength l).
Proof. unfold validLength. apply _. Defined.

(** The weights; 0.3 and 0.2 are the doubles nearest to these decimals. *)
#[local] Set Warnings "-inexact-float".
Definition w1 : float := 0.5%float.
Definition w2 : float := 0.3%float.
Definition w3 : float := 0.2%float.
#[local] Set Warnings "inexact-float".

Definition weightedSum (l0 l1 l2 : Z) : float :=
  (Z2F l0 * w1 + Z2F l1 * w2 + Z2F l2 * w3)%float.

Definition calculateSmartCycleAverage (history : list Cycle) (userDefault : Z) : Z :=
  let completedCycles := drop 1 history in
  let validCycles := filter (fun c => validLength (length c)) completedCycles in
  if (List.length validCycles =? 0)%nat then userDefault
  else if (List.length validCycles <? 3)%nat then
    let sum := fold_left (fun acc c => (acc + Z2F (length c))%float) validCycles (Z2F 0) in
    Math_round (sum / Z2F (Z.of_nat (List.length validCycles)))
  else
    match take 3 validCycles with
    | r0 :: r1 :: r2 :: _ => Math_round (weightedSum (length r0) (length r1) (length r2))
    | _ => userDefault (* not reached: three cycles or more are valid here *)
    end.

Definition getFertileWindowStartDay (cycleLength : Z) : Z :=
  let lutealPhaseLength := 14 in
  let ovulationDay := cycleLength - lutealPhaseLength in
  Z.max 1 (ovulationDay - 5).

(** *** Regularity scorer *)

(** [Math.min(...l)] and [Math.max(...l)]; on the empty list JavaScript
    gives +Infinity and -Infinity, which the caller below never asks for. *)
Definition Math_min (l : list Z) : Z :=
  match l with [] => 0 | x :: xs => fold_left Z.min xs x end.
Definition Math_max (l : list Z) : Z :=
  match l with [] => 0 | x :: xs => fold_left Z.max xs x end.

Definition getCycleRegularity (cycles : list Cycle) : Z :=
  if (List.length cycles <? 4)%nat then 100 else
  let completedLengths := filter validLength (map length (take 6 (drop 1 cycles))) in
  if (List.length completedLengths <? 2)%nat then 100 else
  let min := Math_min completedLengths in
  let max := Math_max completedLengths in
  let variation := max - min in
  if variation <=? 2 then 100
  else if variation <=? 4 then 80
  else if variation <=? 7 then 60
  else if variation <=? 10 then 40
  else 20.

(** *** Cycle segmenter *)

(** [l.flow && l.flow !== 'Spotting'] *)
Definition isFlowLog (l : DailyLog) : Prop :=
  match flow l with
  | Some f => f <> Spotting
  | None => False
  end.

#[global] Instance isFlowLog_dec l : Decision (isFlowLog l).
Proof. unfold isFlowLog. destruct (flow l); apply _. Defined.

(** [Array.prototype.sort] with the comparator
    [(a, b) => new Date(a.date).getTime() - new Date(b.date).getTime()]:
    a stable sort, ascending in the time value. *)
Fixpoint insertByTime (x : DailyLog) (l : list DailyLog) : list DailyLog :=
  match l with
  | [] => [x]
  | y :: l' =>
      if Date_parse (date y) <? Date_parse (date x)
      then y :: insertByTime x l'
      else x :: y :: l'
  end.

Definition sortByTime (l : list DailyLog) : list DailyLog :=
  foldr insertByTime [] l.

(** The variables of the loop. *)
Record Scan : Type := mkScan {
  cycles : list Cycle;
  currentCycleStart : Z;
  lastFlowLogDate : Z
}.

Section Segmenter.

Variable zone : Z -> bool -> Z.

(** One iteration.  [diffDays] is the quotient by a day as a real number,
    so [diffDays > 7] is the comparison of the difference with seven days. *)
Definition scanStep (st : Scan) (l : DailyLog) : Scan :=
  let currentLogDate := Date_parse (date l) in
  if 7 * (1000 * 3600 * 24) <? currentLogDate - lastFlowLogDate st then
    let prevCycleStartISO := formatDateISO zone (currentCycleStart st) in
    let thisCycleStartISO := formatDateISO zone currentLogDate in
    let cycleLength := diffDaysBetween prevCycleStartISO thisCycleStartISO in
    mkScan (cycles st ++ [mkCycle prevCycleStartISO None cycleLength])
           currentLogDate currentLogDate
  else
    mkScan (cycles st) (currentCycleStart st) currentLogDate.

Definition analyzeCyclesFromLogs (logs : list DailyLog) (defaultCycleLen : Z) : list Cycle :=
  let flowLogs := sortByTime (filter isFlowLog logs) in
  match flowLogs with
  | [] => []
  | l0 :: rest =>
      let st := fold_left scanStep rest
                  (mkScan [] (Date_parse (date l0)) (Date_parse (date l0))) in
      rev (cycles st ++
           [mkCycle (formatDateISO zone (currentCycleStart st)) None defaultCycleLen])
  end.

End Segmenter.

(** The near-duplicate of the segmenter found beside [dateUtils.ts]: the
    same scan with a threshold of ten days and the length taken as the
    ceiling of the distance between the two starts. *)
Module Duplicate.
Section Segmenter.

Variable zone : Z -> bool -> Z.

Definition scanStep (st : Scan) (l : DailyLog) : Scan :=
  let currentLogDate := Date_parse (date l) in
  if 10 * (1000 * 3600 * 24) <? currentLogDate - lastFlowLogDate st then
    let cycleLen := ceil_div (currentLogDate - currentCycleStart st) (1000 * 3600 * 24) in
    mkScan (cycles st ++ [mkCycle (formatDateISO zone (currentCycleStart st)) None cycleLen])
           currentLogDate currentLogDate
  else
    mkScan (cycles st) (currentCycleStart st) currentLogDate.

Definition analyzeCyclesFromLogs (logs : list DailyLog) (defaultCycleLen : Z) : list Cycle :=
  let flowLogs := sortByTime (filter isFlowLog logs) in
  match flowLogs with
  | [] => []
  | l0 :: rest =>
      let st := fold_left scanStep rest
                  (mkScan [] (Date_parse (date l0)) (Date_parse (date l0))) in
      rev (cycles st ++
           [mkCycle (formatDateISO zone (currentCycleStart st)) None defaultCycleLen])
  end.

End Segmenter.
End Duplicate.

(** *** Calendar projector ([CalendarView.tsx], [predictionData]) *)

#[global] Instance ISODate_eq_dec : EqDecision ISODate.
Proof. solve_decision. Defined.

#[global] Instance ISODate_countable : Countable ISODate :=
  inj_countable' (fun d => (year d, month d, day d))
                 (fun p => mkDate p.1.1 p.1.2 p.2)
                 (fun d => match d with mkDate _ _ _ => eq_refl end).

Record Marker : Type := mkMarker {
  isProjectedPeriod : bool;
  isFertile : bool;
  isOvulationDay : bool
}.

Section Calendar.

Variable zone : Z -> bool -> Z.

(** Body of the loop over [i]: one projected period day. *)
Definition markPeriod (nextStart : Z) (map : gmap ISODate Marker) (i : Z)
  : gmap ISODate Marker :=
  let pDay := setDate zone nextStart (getDate zone nextStart + i) in
  let iso := formatDateISO zone pDay in
  <[iso := mkMarker true false false]> map.

(** Body of the loop over [o]: one day of the fertile window;
    [!existing?.isProjectedPeriod] holds for an absent entry. *)
Definition markFertile (ovulationDate : Z) (map : gmap ISODate Marker) (o : Z)
  : gmap ISODate Marker :=
  let fDay := setDate zone ovulationDate (getDate zone ovulationDate + o) in
  let iso := formatDateISO zone fDay in
  let isOvulationDay := o =? 0 in
  let existing := map !! iso in
  if negb (from_option isProjectedPeriod false existing)
  then <[iso := mkMarker false true isOvulationDay]> map
  else map.

(** Body of the loop over [c]: one projected cycle. *)
Definition projectCycle (latestStart smartLength periodLen : Z)
    (map : gmap ISODate Marker) (c : Z) : gmap ISODate Marker :=
  let nextStart := setDate zone latestStart (getDate zone latestStart + smartLength * c) in
  let map := fold_left (markPeriod nextStart) (seqZ 0 periodLen) map in
  let nextCycleStart := nextStart in
  let ovulationDate := setDate zone nextCycleStart (getDate zone nextCycleStart - 14) in
  fold_left (markFertile ovulationDate) (seqZ (-5) 7) map.

(** The twelve projected cycles from the start of the latest cycle. *)
Definition projectFuture (latestStart smartLength periodLen : Z) : gmap ISODate Marker :=
  fold_left (projectCycle latestStart smartLength periodLen) (seqZ 1 12) ∅.

(** [predictionData]: the map and the length used. *)
Definition predictionData (cycles : list Cycle) (settings : UserSettings)
  : gmap ISODate Marker * Z :=
  let smartLength := calculateSmartCycleAverage cycles (avgCycleLength settings) in
  let periodLen := if avgPeriodLength settings =? 0 then 5 else avgPeriodLength settings in
  let map :=
    match cycles with
    | [] => ∅
    | c0 :: _ => projectFuture (Date_parse (startDate c0)) smartLength periodLen
    end in
  (map, smartLength).

End Calendar.

(** *** Phase classifier ([CycleWheel.tsx]) *)

(** [statusText], with the number its [subText] shows. *)
Inductive Status : Type :=
| NotStarted (daysUntil : Z)
| Late (daysLate : Z)
| Menstruation (cycleDay : Z)
| FertileWindow
| LutealPhase (daysLeft : Z)
| FollicularPhase (cycleDay : Z).

(** The decision tree, from [daysDiff] on. *)
Definition wheelStatus (daysDiff cycleLen periodLen : Z) : Status :=
  let isFuture := daysDiff <? 0 in
  let cycleDay := if isFuture then 1 else Z.max 1 (daysDiff + 1) in
  let daysLeft := cycleLen - cycleDay in
  let isPeriod := cycleDay <=? periodLen in
  let ovulationDay := cycleLen - 14 in
  let isOvulationWindow := Z.abs (cycleDay - ovulationDay) <=? 2 in
  let isLuteal := ovulationDay + 2 <? cycleDay in
  if isFuture then NotStarted (Z.abs daysDiff)
  else if daysLeft <? 0 then Late (Z.abs daysLeft)
  else if isPeriod then Menstruation cycleDay
  else if isOvulationWindow then FertileWindow
  else if isLuteal then LutealPhase daysLeft
  else FollicularPhase cycleDay.

Section Wheel.

Variable zone : Z -> bool -> Z.

(** [daysDiff], from the current time value [today] and the start date of
    the latest cycle, both taken to local midnight; the start date is split
    into its three numbers, not parsed.  (A cycle of this embedding always
    has a start date; the component's fallback to today for an empty string
    has no counterpart.) *)
Definition wheelDaysDiff (today : Z) (latestCycle : Cycle) : Z :=
  let tl := JS.Day (LocalTime zone today) in
  let todayMidnight :=
    Date_local zone (JS.YearFromDay tl) (JS.MonthFromDay tl) (JS.DateFromDay tl) in
  let s := startDate latestCycle in
  let startMidnight := Date_local zone (year s) (month s - 1) (day s) in
  let diffTime := todayMidnight - startMidnight in
  diffTime / (1000 * 60 * 60 * 24).

Definition CycleWheel (today : Z) (latestCycle : Cycle) (settings : UserSettings)
    (cycles : list Cycle) : Status :=
  let dynamicLength := calculateSmartCycleAverage cycles (avgCycleLength settings) in
  let cycleLen := dynamicLength in
  let periodLen := if avgPeriodLength settings =? 0 then 5 else avgPeriodLength settings in
  wheelStatus (wheelDaysDiff today latestCycle) cycleLen periodLen.

End Wheel.

(** *** Calendar grid ([CalendarView.tsx], the render loop) *)

(** [logs.find(l => l.date === dateStr)] *)
Definition findLog (logs : list DailyLog) (dateStr : ISODate) : option DailyLog :=
  snd <$> list_find (fun l => date l = dateStr) logs.

(** The background of a day button, in the order the component decides it. *)
Inductive CellStyle : Type :=
| LoggedPeriod
| ProjectedPeriod
| OvulationDay
| FertileDay
| Unmarked.

(** What the loop computes for one day button: its date string, its
    background, whether the dot for a log without period flow is drawn,
    whether the selection ring is added, and whether the background of
    today is used (only on a button with no other background). *)
Record Cell : Type := mkCell {
  cellDate : ISODate;
  cellStyle : CellStyle;
  cellDot : bool;
  cellSelected : bool;
  cellToday : bool
}.

Section Grid.

Variable zone : Z -> bool -> Z.

Definition calendarCell (logs : list DailyLog) (map : gmap ISODate Marker)
    (selectedDate : ISODate) (now : Z) (y m d : Z) : Cell :=
  let dateObj := Date_local zone y m d in
  let dateStr := formatDateISO zone dateObj in
  let isSelected := bool_decide (selectedDate = dateStr) in
  let isToday := bool_decide (formatDateISO zone now = dateStr) in
  let log := findLog logs dateStr in
  let hasLog := bool_decide (is_Some log) in
  let isPeriodLog := from_option (fun l => bool_decide (isFlowLog l)) false log in
  let prediction := map !! dateStr in
  let isProjectedPeriod :=
    from_option isProjectedPeriod false prediction && negb isPeriodLog in
  let isFertile := from_option isFertile false prediction in
  let isOvulationDay := from_option isOvulationDay false prediction in
  let style :=
    if isPeriodLog then LoggedPeriod
    else if isProjectedPeriod then ProjectedPeriod
    else if isOvulationDay then OvulationDay
    else if isFertile then FertileDay
    else Unmarked in
  mkCell dateStr style (hasLog && negb isPeriodLog) isSelected
         (isToday && negb isSelected &&
          match style with Unmarked => true | _ => false end).

(** The slots of the month grid: [firstDay] empty slots, then one button for
    each day of the month. *)
Definition calendarGrid (logs : list DailyLog) (map : gmap ISODate Marker)
    (selectedDate : ISODate) (now : Z) (y m : Z) : list (option Cell) :=
  let daysInMonth := getDaysInMonth zone y m in
  let firstDay := getFirstDayOfMonth zone y m in
  replicate (Z.to_nat firstDay) None ++
  ((fun d => Some (calendarCell logs map selectedDate now y m d)) <$> seqZ 1 daysInMonth).

End Grid.

(** *** Storage ([services/storageService.ts]) *)

(** [saveLog], on the stored list: the first log of the same date is
    replaced where it stands; a log of a new date is appended. *)
Definition saveLog (logs : list DailyLog) (log : DailyLog) : list DailyLog :=
  match list_find (fun l => date l = date log) logs with
  | Some (existingIndex, _) => <[existingIndex := log]> logs
  | None => logs ++ [log]
  end.

(** [Array.prototype.sort] with the comparator
    [(a, b) => new Date(b.startDate).getTime() - new Date(a.startDate).getTime()]:
    a stable sort, descending in the time value. *)
Fixpoint insertByStart (x : Cycle) (l : list Cycle) : list Cycle :=
  match l with
  | [] => [x]
  | y :: l' =>
      if Date_parse (startDate x) <? Date_parse (startDate y)
      then y :: insertByStart x l'
      else x :: y :: l'
  end.

Definition saveCycles (cs : list Cycle) : list Cycle :=
  foldr insertByStart [] cs.

(** *** The application state ([App.tsx]) *)

(** The stored logs and cycles, and the component's state. *)
Record AppState : Type := mkApp {
  storedLogs : list DailyLog;
  storedCycles : list Cycle;
  stateLogs : list DailyLog;
  stateCycles : list Cycle;
  stateSettings : UserSettings
}.

Section App.

Variable zone : Z -> bool -> Z.

Definition handleSaveLog (st : AppState) (newLog : DailyLog) : AppState :=
  let updatedLogs := saveLog (storedLogs st) newLog in
  match flow newLog with
  | Some _ =>
      let detectedCycles :=
        analyzeCyclesFromLogs zone updatedLogs (avgCycleLength (stateSettings st)) in
      if (0 <? List.length detectedCycles)%nat then
        let savedCycles := saveCycles detectedCycles in
        mkApp updatedLogs savedCycles updatedLogs savedCycles (stateSettings st)
      else if (0 <? List.length (stateCycles st))%nat &&
              (List.length (filter isFlowLog updatedLogs) =? 0)%nat then
        mkApp updatedLogs (saveCycles []) updatedLogs [] (stateSettings st)
      else
        mkApp updatedLogs (storedCycles st) updatedLogs (stateCycles st) (stateSettings st)
  | None =>
      mkApp updatedLogs (storedCycles st) updatedLogs (stateCycles st) (stateSettings st)
  end.

(** The part of [handleSaveSettings] that touches the cycles. *)
Definition handleSaveSettings (st : AppState) (newSettings : UserSettings) : AppState :=
  if (0 <? List.length (stateLogs st))%nat then
    let reanalyzedCycles :=
      analyzeCyclesFromLogs zone (stateLogs st) (avgCycleLength newSettings) in
    if (0 <? List.length reanalyzedCycles)%nat then
      let savedCycles := saveCycles reanalyzedCycles in
      mkApp (storedLogs st) savedCycles (stateLogs st) savedCycles newSettings
    else mkApp (storedLogs st) (storedCycles st) (stateLogs st) (stateCycles st) newSettings
  else mkApp (storedLogs st) (storedCycles st) (stateLogs st) (stateCycles st) newSettings.

(** [latestCycle], the cycle handed to the wheel. *)
Definition appLatestCycle (now : Z) (st : AppState) : Cycle :=
  match stateCycles st with
  | c :: _ => c
  | [] => mkCycle (formatDateISO zone now) None (avgCycleLength (stateSettings st))
  end.

End App.

(** A zone with the same offset of [k] minutes at all times; two hosts used
    in the examples: UTC, and a zone five hours west of it. *)
Definition fixedZone (k : Z) : Z -> bool -> Z := fun _ _ => k.
Definition zoneUTC : Z -> bool -> Z := fixedZone 0.
Definition zoneWest5 : Z -> bool -> Z := fixedZone (-300).

(** ** Vocabulary of the statements *)

(** The cycles the estimator averages: the history without its first entry,
    restricted to the plausible lengths. *)
Definition validCycles (history : list Cycle) : list Cycle :=
  filter (fun c => validLength (length c)) (drop 1 history).

(** The plausible lengths are finitely many, so a boolean property of them
    is settled by running it. *)
Definition plausible : list Z := seqZ 21 25.

(** [Math.round] of the weighted sum is an integer nearest to the exact
    weighted average (5a + 3b + 2c) / 10, and lies in the plausible range. *)
Definition nearest_weighted (a b c : Z) : bool :=
  let r := Math_round (weightedSum a b c) in
  (Z.abs (10 * r - (5 * a + 3 * b + 2 * c)) <=? 5) && (21 <=? r) && (r <=? 45).

(** The calendar date after [d]. *)
Definition tomorrow (d : ISODate) : ISODate :=
  if day d <? daysInMonth (year d) (month d) then mkDate (year d) (month d) (day d + 1)
  else if month d <? 12 then mkDate (year d) (month d + 1) 1
  else mkDate (year d + 1) 1 1.

(** A month and a day of that month, in any year. *)
Definition calendar_date (d : ISODate) : Prop :=
  1 <= month d <= 12 /\ 1 <= day d <= daysInMonth (year d) (month d).

(** [m] is the greatest (the least) element of [l]. *)
Definition greatest (l : list Z) (m : Z) : Prop := m ∈ l /\ forall x, x ∈ l -> x <= m.
Definition least (l : list Z) (m : Z) : Prop := m ∈ l /\ forall x, x ∈ l -> m <= x.

(** The key of the sort: the time value of a log's date. *)
Definition logTime (l : DailyLog) : Z := Date_parse (date l).

Definition byTime (a b : DailyLog) : Prop := logTime a <= logTime b.

(** [a] comes before [b] in a list of cycles sorted newest first: the start
    of [b] is an earlier date than the start of [a]. *)
Definition newerThan (a b : Cycle) : Prop :=
  Date_parse (startDate b) < Date_parse (startDate a).

(** Local time differs from UTC by less than a day (every zone in use lies
    between UTC-12 and UTC+14). *)
Definition zone_within_a_day (zone : Z -> bool -> Z) : Prop :=
  forall t, -1440 < zone t true < 1440.

(** A host at UTC or east of it. *)
Definition zone_east_of_UTC (zone : Z -> bool -> Z) : Prop :=
  forall t, 0 <= zone t true < 1440.

(** The state of the scan after the logs [rest] that follow the first
    qualifying log [l0], and the list returned from a final state. *)
Definition scanFrom (zone : Z -> bool -> Z) (l0 : DailyLog) (rest : list DailyLog) : Scan :=
  fold_left (scanStep zone) rest (mkScan [] (logTime l0) (logTime l0)).

Definition scanResult (zone : Z -> bool -> Z) (st : Scan) (defaultCycleLen : Z) : list Cycle :=
  rev (cycles st ++
       [mkCycle (formatDateISO zone (currentCycleStart st)) None defaultCycleLen]).

(** What the scan maintains: the open cycle starts no later than the last
    log seen, the closed cycles are in order of their start dates, oldest
    first, and each starts before the local date of the open cycle. *)
Definition scanInvariant (zone : Z -> bool -> Z) (st : Scan) : Prop :=
  currentCycleStart st <= lastFlowLogDate st /\
  StronglySorted (fun a b => newerThan b a) (cycles st) /\
  Forall (fun c => JS.Day (Date_parse (startDate c)) <
                   JS.Day (LocalTime zone (currentCycleStart st))) (cycles st).

(** The order of the strings [YYYY-MM-DD]: lexicographic in year, month
    and day. *)
Definition ISODate_lt (a b : ISODate) : Prop :=
  year a < year b \/
  (year a = year b /\ (month a < month b \/ (month a = month b /\ day a < day b))).

(** The date string of projected period day [i] of projected cycle [c], and
    of the day at offset [o] from its ovulation date, as the projector
    computes them. *)
Definition nextStartOf (zone : Z -> bool -> Z) (latestStart smartLength c : Z) : Z :=
  setDate zone latestStart (getDate zone latestStart + smartLength * c).

Definition periodDay (zone : Z -> bool -> Z) (latestStart smartLength c i : Z) : ISODate :=
  let nextStart := nextStartOf zone latestStart smartLength c in
  formatDateISO zone (setDate zone nextStart (getDate zone nextStart + i)).

Definition fertileDay (zone : Z -> bool -> Z) (latestStart smartLength c o : Z) : ISODate :=
  let nextStart := nextStartOf zone latestStart smartLength c in
  let ovulationDate := setDate zone nextStart (getDate zone nextStart - 14) in
  formatDateISO zone (setDate zone ovulationDate (getDate zone ovulationDate + o)).

(** The two shapes of an entry of the prediction map. *)
Definition periodMarker : Marker := mkMarker true false false.

Definition periodOrFertile (e : Marker) : Prop :=
  e = periodMarker \/ (isProjectedPeriod e = false /\ isFertile e = true).

(** The date [n] days after [d] ([d] itself for a negative [n]). *)
Definition daysAfter (d : ISODate) (n : Z) : ISODate := Nat.iter (Z.to_nat n) tomorrow d.

(** A host west of UTC. *)
Definition zone_west_of_UTC (zone : Z -> bool -> Z) : Prop :=
  forall t, -1440 <= zone t true < 0.

(** Every log carries a valid date string: the domain on which [Date_parse]
    is the host's parse (another string gives NaN there). *)
Definition validDates (logs : list DailyLog) : Prop :=
  Forall (fun l => valid_date (date l) = true) logs.

(** The year [new Date(year, monthIndex, day)] takes for its first argument:
    0..99 stand for 1900..1999. *)
Definition centuryYear (y : Z) : Z := if (0 <=? y) && (y <=? 99) then 1900 + y else y.

(** The writes of the projector, in the order it makes them: a period
    marker set at a date, or a fertile marker set at a date unless a period
    marker is there. *)
Inductive Mark : Type :=
| MarkPeriod (iso : ISODate)
| MarkFertile (iso : ISODate) (ovulation : bool).

Definition applyMark (m : gmap ISODate Marker) (w : Mark) : gmap ISODate Marker :=
  match w with
  | MarkPeriod iso => <[iso := mkMarker true false false]> m
  | MarkFertile iso ov =>
      if negb (from_option isProjectedPeriod false (m !! iso))
      then <[iso := mkMarker false true ov]> m
      else m
  end.

Definition cycleMarks (zone : Z -> bool -> Z) (latestStart smartLength periodLen c : Z)
  : list Mark :=
  ((fun i => MarkPeriod (periodDay zone latestStart smartLength c i)) <$> seqZ 0 periodLen) ++
  ((fun o => MarkFertile (fertileDay zone latestStart smartLength c o) (o =? 0)) <$> seqZ (-5) 7).

Definition futureMarks (zone : Z -> bool -> Z) (latestStart smartLength periodLen : Z)
  : list Mark :=
  seqZ 1 12 ≫= cycleMarks zone latestStart smartLength periodLen.

(** [a] may come before [b] in a list of cycles sorted by [saveCycles]. *)
Definition notOlderThan (a b : Cycle) : Prop :=
  Date_parse (startDate b) <= Date_parse (startDate a).

(** * Properties *)

(** ** Calendar lemmas *)

(** The time values of some dates, as every host prints them. *)
Example Date_parse_examples :
  Date_parse (mkDate 1970 1 1) = 0 /\
  Date_parse (mkDate 2024 1 1) = 1704067200000 /\
  Date_parse (mkDate 2000 2 29) = 951782400000 /\
  toISODate 1709251199999 = mkDate 2024 2 29 /\
  toISODate (-1) = mkDate 1969 12 31.
Proof. vm_compute. repeat split; reflexivity. Qed.

Lemma DayFromYear_succ y : JS.DayFromYear (y + 1) = JS.DayFromYear y + JS.DaysInYear y.
Proof.
  unfold JS.DayFromYear, JS.DaysInYear, JS.isLeap.
  destruct (y mod 4 =? 0) eqn:E4; destruct (y mod 100 =? 0) eqn:E100;
    destruct (y mod 400 =? 0) eqn:E400; simpl;
    rewrite ?Z.eqb_eq, ?Z.eqb_neq in *;
    Z.div_mod_to_equations; lia.
Qed.

Lemma YearFromDay_bracket d :
  JS.DayFromYear (JS.YearFromDay d) <= d < JS.DayFromYear (JS.YearFromDay d + 1).
Proof.
  unfold JS.YearFromDay.
  set (y := 1970 + 400 * d / 146097).
  assert (Hlo : JS.DayFromYear (y - 1) <= d).
  { unfold JS.DayFromYear, y. Z.div_mod_to_equations. lia. }
  assert (Hhi : d < JS.DayFromYear (y + 2)).
  { unfold JS.DayFromYear, y. Z.div_mod_to_equations. lia. }
  destruct (d <? JS.DayFromYear y) eqn:E1.
  - apply Z.ltb_lt in E1. replace (y - 1 + 1) with y by lia. lia.
  - apply Z.ltb_ge in E1.
    destruct (JS.DayFromYear (y + 1) <=? d) eqn:E2.
    + apply Z.leb_le in E2. replace (y + 1 + 1) with (y + 2) by lia. lia.
    + apply Z.leb_gt in E2. lia.
Qed.

Lemma DaysInYear_cases y :
  (JS.isLeap y = true /\ JS.DaysInYear y = 366) \/
  (JS.isLeap y = false /\ JS.DaysInYear y = 365).
Proof. unfold JS.DaysInYear. destruct (JS.isLeap y); auto. Qed.

Lemma DayFromYear_mono y1 y2 : y1 <= y2 -> JS.DayFromYear y1 <= JS.DayFromYear y2.
Proof.
  intros H. unfold JS.DayFromYear. Z.div_mod_to_equations. lia.
Qed.

Lemma YearFromDay_unique d y :
  JS.DayFromYear y <= d < JS.DayFromYear (y + 1) -> JS.YearFromDay d = y.
Proof.
  intros H. pose proof (YearFromDay_bracket d) as B.
  destruct (Z.lt_trichotomy (JS.YearFromDay d) y) as [L | [E | G]]; [| exact E |].
  - pose proof (DayFromYear_mono (JS.YearFromDay d + 1) y ltac:(lia)). lia.
  - pose proof (DayFromYear_mono (y + 1) (JS.YearFromDay d) ltac:(lia)). lia.
Qed.

Lemma DayWithinYear_range d :
  0 <= JS.DayWithinYear d < 365 + JS.InLeapYear d.
Proof.
  unfold JS.DayWithinYear, JS.InLeapYear.
  pose proof (YearFromDay_bracket d) as B.
  rewrite DayFromYear_succ in B. unfold JS.DaysInYear in B.
  destruct (JS.isLeap (JS.YearFromDay d)); lia.
Qed.

(** Evaluates the closed arguments of [monthStart] left by a case split. *)
Ltac month_table :=
  repeat match goal with
         | |- context [JS.monthStart ?L (?a + 1)] =>
             let v := eval vm_compute in (a + 1) in change (a + 1) with v
         | H : context [JS.monthStart ?L (?a + 1)] |- _ =>
             let v := eval vm_compute in (a + 1) in change (a + 1) with v in H
         end;
  cbn [JS.monthStart] in *.

Lemma monthOfYearDay_spec L n :
  0 <= L <= 1 -> 0 <= n < 365 + L ->
  let m := JS.monthOfYearDay L n in
  0 <= m <= 11 /\ JS.monthStart L m <= n < JS.monthStart L (m + 1).
Proof.
  intros HL Hn. unfold JS.monthOfYearDay.
  repeat match goal with
         | |- context [?a <? ?b] =>
             let E := fresh "E" in
             destruct (a <? b) eqn:E;
             [apply Z.ltb_lt in E | apply Z.ltb_ge in E]
         end; cbv zeta; month_table; lia.
Qed.

(** Reading back the calendar date of a day gives the day: [MakeDay] inverts
    (YearFromTime, MonthFromTime, DateFromTime). *)
Lemma MakeDay_of_Day d :
  JS.MakeDay (JS.YearFromDay d) (JS.MonthFromDay d) (JS.DateFromDay d) = d.
Proof.
  pose proof (DayWithinYear_range d) as R.
  assert (HL : 0 <= JS.InLeapYear d <= 1)
    by (unfold JS.InLeapYear; destruct (JS.isLeap _); lia).
  pose proof (monthOfYearDay_spec _ _ HL R) as [Hm _].
  fold (JS.MonthFromDay d) in Hm.
  unfold JS.MakeDay, JS.DateFromDay.
  rewrite (Z.div_small (JS.MonthFromDay d) 12) by lia.
  rewrite (Z.mod_small (JS.MonthFromDay d) 12) by lia.
  rewrite Z.add_0_r. fold (JS.InLeapYear d).
  unfold JS.DayWithinYear. lia.
Qed.

Lemma Date_parse_toISODate t : Date_parse (toISODate t) = JS.Day t * JS.msPerDay.
Proof.
  unfold Date_parse, toISODate, JS.MakeDate. cbn [year month day].
  replace (JS.MonthFromDay (JS.Day t) + 1 - 1) with (JS.MonthFromDay (JS.Day t)) by lia.
  rewrite MakeDay_of_Day. lia.
Qed.

Lemma Day_Date_parse s : JS.Day (Date_parse s) = JS.MakeDay (year s) (month s - 1) (day s).
Proof.
  unfold Date_parse, JS.MakeDate, JS.Day. rewrite Z.add_0_r.
  apply Z.div_mul. discriminate.
Qed.

Lemma monthStart_step y m :
  1 <= m <= 12 ->
  JS.monthStart (if JS.isLeap y then 1 else 0) m =
  JS.monthStart (if JS.isLeap y then 1 else 0) (m - 1) + daysInMonth y m.
Proof.
  intros H.
  assert (C : m = 1 \/ m = 2 \/ m = 3 \/ m = 4 \/ m = 5 \/ m = 6 \/ m = 7 \/
              m = 8 \/ m = 9 \/ m = 10 \/ m = 11 \/ m = 12) by lia.
  unfold daysInMonth.
  repeat (destruct C as [-> | C]); try subst m; destruct (JS.isLeap y); reflexivity.
Qed.

Lemma monthOfYearDay_unique L n m :
  0 <= L <= 1 -> 0 <= m <= 11 ->
  JS.monthStart L m <= n < JS.monthStart L (m + 1) ->
  JS.monthOfYearDay L n = m.
Proof.
  intros HL Hm Hn.
  assert (C : m = 0 \/ m = 1 \/ m = 2 \/ m = 3 \/ m = 4 \/ m = 5 \/ m = 6 \/
              m = 7 \/ m = 8 \/ m = 9 \/ m = 10 \/ m = 11) by lia.
  unfold JS.monthOfYearDay.
  repeat (destruct C as [-> | C]); try subst m; month_table;
    repeat match goal with
           | |- context [?a <? ?b] =>
               let E := fresh "E" in
               destruct (a <? b) eqn:E;
               [apply Z.ltb_lt in E | apply Z.ltb_ge in E]
           end; lia.
Qed.

Lemma monthStart_bound L m : 0 <= L <= 1 -> 0 <= m <= 12 -> 0 <= JS.monthStart L m <= 365 + L.
Proof.
  intros HL Hm.
  assert (C : m = 0 \/ m = 1 \/ m = 2 \/ m = 3 \/ m = 4 \/ m = 5 \/ m = 6 \/
              m = 7 \/ m = 8 \/ m = 9 \/ m = 10 \/ m = 11 \/ m = 12) by lia.
  repeat (destruct C as [-> | C]); try subst m; cbn; lia.
Qed.

Lemma monthStart_mono L m1 m2 :
  0 <= L <= 1 -> 0 <= m1 -> m1 <= m2 -> m2 <= 12 -> JS.monthStart L m1 <= JS.monthStart L m2.
Proof.
  intros HL H1 H12 H2.
  assert (C1 : m1 = 0 \/ m1 = 1 \/ m1 = 2 \/ m1 = 3 \/ m1 = 4 \/ m1 = 5 \/ m1 = 6 \/
              m1 = 7 \/ m1 = 8 \/ m1 = 9 \/ m1 = 10 \/ m1 = 11 \/ m1 = 12) by lia.
  assert (C2 : m2 = 0 \/ m2 = 1 \/ m2 = 2 \/ m2 = 3 \/ m2 = 4 \/ m2 = 5 \/ m2 = 6 \/
              m2 = 7 \/ m2 = 8 \/ m2 = 9 \/ m2 = 10 \/ m2 = 11 \/ m2 = 12) by lia.
  repeat (destruct C1 as [-> | C1]); try subst m1;
    repeat (destruct C2 as [-> | C2]); try subst m2; cbn; lia.
Qed.

(** A valid calendar date is the date of its own day number. *)
Lemma toISODate_Date_parse_calendar s : calendar_date s -> toISODate (Date_parse s) = s.
Proof.
  destruct s as [y m dd]. unfold calendar_date. cbn [year month day].
  intros [[Hm0 Hm1] [Hd0 Hd1]].
  unfold toISODate. rewrite Day_Date_parse. cbn [year month day].
  set (L := if JS.isLeap y then 1 else 0).
  assert (HL : 0 <= L <= 1) by (unfold L; destruct (JS.isLeap y); lia).
  set (n := JS.MakeDay y (m - 1) dd).
  assert (En : n = JS.DayFromYear y + JS.monthStart L (m - 1) + dd - 1).
  { unfold n, JS.MakeDay. rewrite (Z.div_small (m - 1) 12) by lia.
    rewrite (Z.mod_small (m - 1) 12) by lia. rewrite Z.add_0_r. reflexivity. }
  pose proof (monthStart_step y m ltac:(lia)) as St. fold L in St.
  pose proof (monthStart_bound L (m - 1) HL ltac:(lia)) as B0.
  pose proof (monthStart_bound L m HL ltac:(lia)) as B1.
  assert (EY : JS.YearFromDay n = y).
  { apply YearFromDay_unique. rewrite DayFromYear_succ. unfold JS.DaysInYear.
    unfold L in *. destruct (JS.isLeap y); lia. }
  assert (EL : JS.InLeapYear n = L) by (unfold JS.InLeapYear; rewrite EY; reflexivity).
  assert (EW : JS.DayWithinYear n = JS.monthStart L (m - 1) + dd - 1)
    by (unfold JS.DayWithinYear; rewrite EY; lia).
  assert (EM : JS.MonthFromDay n = m - 1).
  { unfold JS.MonthFromDay. rewrite EL, EW.
    apply monthOfYearDay_unique; [lia | lia |].
    replace (m - 1 + 1) with m by lia. lia. }
  unfold JS.DateFromDay. rewrite EL, EM, EW, EY. f_equal; lia.
Qed.

Lemma toISODate_Date_parse s : valid_date s = true -> toISODate (Date_parse s) = s.
Proof.
  intros H. apply toISODate_Date_parse_calendar.
  unfold valid_date in H. unfold calendar_date.
  rewrite !andb_true_iff, !Z.leb_le in H. tauto.
Qed.

(** ** Smart length estimator *)

Lemma validLength_plausible l : validLength l -> In l plausible.
Proof.
  intros [H1 H2]. apply list_elem_of_In, elem_of_seqZ. lia.
Qed.

Lemma plausible1 (P : Z -> bool) :
  forallb P plausible = true -> forall a, validLength a -> P a = true.
Proof.
  intros H a Ha. rewrite forallb_forall in H. auto using validLength_plausible.
Qed.

Lemma plausible2 (P : Z -> Z -> bool) :
  forallb (fun a => forallb (P a) plausible) plausible = true ->
  forall a b, validLength a -> validLength b -> P a b = true.
Proof.
  intros H a b Ha Hb.
  apply (plausible1 (fun a => forallb (P a) plausible)) with (a := a) in H; [| exact Ha].
  apply (plausible1 (P a)); assumption.
Qed.

Lemma plausible3 (P : Z -> Z -> Z -> bool) :
  forallb (fun a => forallb (fun b => forallb (P a b) plausible) plausible) plausible = true ->
  forall a b c, validLength a -> validLength b -> validLength c -> P a b c = true.
Proof.
  intros H a b c Ha Hb Hc.
  apply (plausible2 (fun a b => forallb (P a b) plausible)) with (a := a) (b := b) in H;
    [| exact Ha | exact Hb].
  apply (plausible1 (P a b)); assumption.
Qed.

(** The double arithmetic of the plain mean is exact on plausible lengths. *)
Lemma mean_of_one a :
  validLength a -> Math_round ((Z2F 0 + Z2F a) / Z2F 1)%float = a.
Proof.
  intros Ha. apply Z.eqb_eq.
  apply (plausible1 (fun a => Math_round ((Z2F 0 + Z2F a) / Z2F 1)%float =? a)); [| exact Ha].
  vm_compute. reflexivity.
Qed.

Lemma mean_of_two a b :
  validLength a -> validLength b ->
  Math_round ((Z2F 0 + Z2F a + Z2F b) / Z2F 2)%float = (a + b + 1) / 2.
Proof.
  intros Ha Hb. apply Z.eqb_eq.
  apply (plausible2
           (fun a b => Math_round ((Z2F 0 + Z2F a + Z2F b) / Z2F 2)%float =? (a + b + 1) / 2));
    [| exact Ha | exact Hb].
  vm_compute. reflexivity.
Qed.

Lemma weighted_of_three a b c :
  validLength a -> validLength b -> validLength c ->
  let r := Math_round (weightedSum a b c) in
  Z.abs (10 * r - (5 * a + 3 * b + 2 * c)) <= 5 /\ 21 <= r <= 45.
Proof.
  intros Ha Hb Hc r.
  assert (H : nearest_weighted a b c = true).
  { apply plausible3; [| exact Ha | exact Hb | exact Hc]. vm_compute. reflexivity. }
  unfold nearest_weighted in H. fold r in H.
  rewrite !andb_true_iff, !Z.leb_le in H. lia.
Qed.

(** Membership in a list written out. *)
Ltac in_list := repeat first [apply list_elem_of_here | apply list_elem_of_further].

Lemma validCycles_valid history c : c ∈ validCycles history -> validLength (length c).
Proof. unfold validCycles. rewrite list_elem_of_filter. tauto. Qed.

Lemma validCycles_lengths history :
  map length (validCycles history) = filter validLength (map length (drop 1 history)).
Proof.
  unfold validCycles. induction (drop 1 history) as [| c l IH]; [reflexivity |].
  cbn [map]. rewrite !filter_cons. destruct (decide (validLength (length c))); cbn [map]; congruence.
Qed.

Lemma estimator_none history userDefault :
  validCycles history = [] -> calculateSmartCycleAverage history userDefault = userDefault.
Proof. unfold calculateSmartCycleAverage. fold (validCycles history). intros ->. reflexivity. Qed.

Lemma estimator_one history userDefault c :
  validCycles history = [c] ->
  calculateSmartCycleAverage history userDefault = length c.
Proof.
  intros E. unfold calculateSmartCycleAverage. fold (validCycles history). rewrite E.
  cbn [List.length Nat.eqb Nat.ltb Nat.leb fold_left Z.of_nat Pos.of_succ_nat].
  apply mean_of_one, (validCycles_valid history). rewrite E. apply list_elem_of_here.
Qed.

Lemma estimator_two history userDefault c1 c2 :
  validCycles history = [c1; c2] ->
  calculateSmartCycleAverage history userDefault = (length c1 + length c2 + 1) / 2.
Proof.
  intros E. unfold calculateSmartCycleAverage. fold (validCycles history). rewrite E.
  cbn [List.length Nat.eqb Nat.ltb Nat.leb fold_left Z.of_nat Pos.of_succ_nat Pos.succ].
  apply mean_of_two; apply (validCycles_valid history); rewrite E; in_list.
Qed.

Lemma estimator_three history userDefault r0 r1 r2 rest :
  validCycles history = r0 :: r1 :: r2 :: rest ->
  calculateSmartCycleAverage history userDefault =
  Math_round (weightedSum (length r0) (length r1) (length r2)).
Proof.
  intros E. unfold calculateSmartCycleAverage. fold (validCycles history). rewrite E.
  reflexivity.
Qed.

Lemma estimator_ext h1 h2 userDefault :
  validCycles h1 = validCycles h2 ->
  calculateSmartCycleAverage h1 userDefault = calculateSmartCycleAverage h2 userDefault.
Proof.
  intros E. unfold calculateSmartCycleAverage.
  fold (validCycles h1). fold (validCycles h2). rewrite E. reflexivity.
Qed.

Lemma validCycles_discard h1 c h2 :
  h1 <> [] -> ~ validLength (length c) ->
  validCycles (h1 ++ c :: h2) = validCycles (h1 ++ h2).
Proof.
  intros Hne Hc. destruct h1 as [| c0 h1]; [congruence |].
  unfold validCycles. cbn [app drop]. rewrite !drop_0, !filter_app.
  rewrite filter_cons_False by exact Hc. reflexivity.
Qed.

(** C3: with three valid completed cycles or more, the estimate is
    [Math.round] of the weighted sum of the first three of them in list
    order, with the weights 0.5, 0.3 and 0.2; it is an integer nearest to
    the exact weighted average (5 l0 + 3 l1 + 2 l2) / 10; and for the
    lengths 30, 28, 26 it is 29. *)
Theorem C3_weighted_average_of_three_most_recent
    (history : list Cycle) (userDefault : Z) (r0 r1 r2 : Cycle) (rest : list Cycle) :
  validCycles history = r0 :: r1 :: r2 :: rest ->
  let r := calculateSmartCycleAverage history userDefault in
  r = Math_round (weightedSum (length r0) (length r1) (length r2)) /\
  Z.abs (10 * r - (5 * length r0 + 3 * length r1 + 2 * length r2)) <= 5 /\
  (length r0 = 30 -> length r1 = 28 -> length r2 = 26 -> r = 29).
Proof.
  intros E r.
  assert (Er : r = Math_round (weightedSum (length r0) (length r1) (length r2)))
    by (apply estimator_three with (rest := rest); exact E).
  assert (V : forall c, c ∈ [r0; r1; r2] -> validLength (length c)).
  { intros c Hc. apply (validCycles_valid history). rewrite E.
    rewrite !elem_of_cons in Hc. destruct Hc as [-> | [-> | [-> | Hc]]];
      [in_list | in_list | in_list |]. inversion Hc. }
  split; [exact Er |]. split.
  - rewrite Er. apply weighted_of_three; apply V; in_list.
  - intros H0 H1 H2. rewrite Er, H0, H1, H2. vm_compute. reflexivity.
Qed.

Lemma C3_weighted_average_witness :
  validCycles [mkCycle (mkDate 2024 4 1) None 28; mkCycle (mkDate 2024 3 2) None 30;
               mkCycle (mkDate 2024 2 3) None 28; mkCycle (mkDate 2024 1 8) None 26]
  = [mkCycle (mkDate 2024 3 2) None 30; mkCycle (mkDate 2024 2 3) None 28;
     mkCycle (mkDate 2024 1 8) None 26] /\
  calculateSmartCycleAverage
    [mkCycle (mkDate 2024 4 1) None 28; mkCycle (mkDate 2024 3 2) None 30;
     mkCycle (mkDate 2024 2 3) None 28; mkCycle (mkDate 2024 1 8) None 26] 31 = 29.
Proof.
  split; [reflexivity |].
  apply (C3_weighted_average_of_three_most_recent
           [mkCycle (mkDate 2024 4 1) None 28; mkCycle (mkDate 2024 3 2) None 30;
            mkCycle (mkDate 2024 2 3) None 28; mkCycle (mkDate 2024 1 8) None 26]
           31 _ _ _ [] eq_refl); reflexivity.
Defined.

(** At an exact tie the binary weights decide the direction: the exact
    average of 21, 36, 21 is 25.5 and the estimate is 25. *)
Lemma weighted_tie_rounds_down :
  calculateSmartCycleAverage
    [mkCycle (mkDate 2024 4 1) None 28; mkCycle (mkDate 2024 3 1) None 21;
     mkCycle (mkDate 2024 2 1) None 36; mkCycle (mkDate 2024 1 1) None 21] 28 = 25.
Proof. vm_compute. reflexivity. Qed.

(** C6: the estimate depends on the history only through its valid completed
    cycles: the entry at index 0 is ignored and an entry with a length
    outside [21,45] can be deleted without changing the result; with no valid
    cycle the default is returned unchanged, with one its length, with two
    their mean rounded to the nearest integer (a half goes up); in particular
    for the empty history and for the history [{length: 60}]. *)
Theorem C6_fallback_and_plain_mean (history : list Cycle) (userDefault : Z) :
  (forall c0 c0' h, history = c0 :: h ->
     calculateSmartCycleAverage (c0' :: h) userDefault =
     calculateSmartCycleAverage history userDefault) /\
  (forall h1 c h2, history = h1 ++ c :: h2 -> h1 <> [] -> ~ validLength (length c) ->
     calculateSmartCycleAverage (h1 ++ h2) userDefault =
     calculateSmartCycleAverage history userDefault) /\
  (validCycles history = [] ->
     calculateSmartCycleAverage history userDefault = userDefault) /\
  (forall c, validCycles history = [c] ->
     calculateSmartCycleAverage history userDefault = length c) /\
  (forall c1 c2, validCycles history = [c1; c2] ->
     calculateSmartCycleAverage history userDefault = (length c1 + length c2 + 1) / 2 /\
     Z.abs (2 * calculateSmartCycleAverage history userDefault - (length c1 + length c2)) <= 1) /\
  calculateSmartCycleAverage [] 28 = 28 /\
  (forall s e, calculateSmartCycleAverage [mkCycle s e 60] 28 = 28).
Proof.
  repeat split.
  - intros c0 c0' h ->. apply estimator_ext. reflexivity.
  - intros h1 c h2 -> Hne Hc. apply estimator_ext. symmetry. apply validCycles_discard; assumption.
  - apply estimator_none.
  - apply estimator_one.
  - apply estimator_two; assumption.
  - rewrite (estimator_two _ _ _ _ H). Z.div_mod_to_equations. lia.
Qed.

Lemma C6_fallback_witness :
  calculateSmartCycleAverage
    [mkCycle (mkDate 2024 3 1) None 28; mkCycle (mkDate 2024 2 1) None 29;
     mkCycle (mkDate 2023 12 1) None 62; mkCycle (mkDate 2023 11 3) None 28] 31 = 29.
Proof.
  apply (proj1 (proj2 (proj2 (proj2 (proj2
           (C6_fallback_and_plain_mean
              [mkCycle (mkDate 2024 3 1) None 28; mkCycle (mkDate 2024 2 1) None 29;
               mkCycle (mkDate 2023 12 1) None 62; mkCycle (mkDate 2023 11 3) None 28] 31)))))
           (mkCycle (mkDate 2024 2 1) None 29) (mkCycle (mkDate 2023 11 3) None 28) eq_refl).
Defined.

(** C10: as soon as one completed cycle is valid, the estimate lies in
    [21,45], whatever the default. *)
Theorem C10_estimate_is_plausible (history : list Cycle) (userDefault : Z) :
  validCycles history <> [] ->
  21 <= calculateSmartCycleAverage history userDefault <= 45.
Proof.
  intros Hne.
  assert (V : forall c, c ∈ validCycles history -> validLength (length c))
    by apply validCycles_valid.
  destruct (validCycles history) as [| c1 [| c2 [| c3 rest]]] eqn:E; [congruence | | |].
  - rewrite (estimator_one _ _ _ E). apply (V c1). in_list.
  - rewrite (estimator_two _ _ _ _ E).
    assert (V1 : validLength (length c1)) by (apply V; in_list).
    assert (V2 : validLength (length c2)) by (apply V; in_list).
    unfold validLength in *. Z.div_mod_to_equations. lia.
  - rewrite (estimator_three _ _ _ _ _ _ E).
    apply weighted_of_three; apply V; in_list.
Qed.

Lemma C10_estimate_witness :
  21 <= calculateSmartCycleAverage
          [mkCycle (mkDate 2024 3 1) None 90; mkCycle (mkDate 2024 2 1) None 45;
           mkCycle (mkDate 2023 12 1) None 45; mkCycle (mkDate 2023 11 3) None 45] 90 <= 45.
Proof.
  apply (C10_estimate_is_plausible
           [mkCycle (mkDate 2024 3 1) None 90; mkCycle (mkDate 2024 2 1) None 45;
            mkCycle (mkDate 2023 12 1) None 45; mkCycle (mkDate 2023 11 3) None 45] 90).
  vm_compute. discriminate.
Defined.

(** ** Regularity scorer *)

Lemma fold_max_greatest xs x : greatest (x :: xs) (fold_left Z.max xs x).
Proof.
  revert x. induction xs as [| y ys IH]; intros x; cbn [fold_left].
  - split; [in_list |]. intros z Hz. apply list_elem_of_singleton in Hz. lia.
  - destruct (IH (Z.max x y)) as [Hin Hub]. split.
    + apply elem_of_cons in Hin as [-> | Hin].
      * destruct (Z.max_spec x y) as [[_ ->] | [_ ->]]; in_list.
      * in_list. exact Hin.
    + intros z Hz. rewrite !elem_of_cons in Hz.
      assert (Z.max x y <= fold_left Z.max ys (Z.max x y)) by (apply Hub; in_list).
      destruct Hz as [-> | [-> | Hz]]; [lia | lia |].
      apply Hub. in_list. exact Hz.
Qed.

Lemma fold_min_least xs x : least (x :: xs) (fold_left Z.min xs x).
Proof.
  revert x. induction xs as [| y ys IH]; intros x; cbn [fold_left].
  - split; [in_list |]. intros z Hz. apply list_elem_of_singleton in Hz. lia.
  - destruct (IH (Z.min x y)) as [Hin Hlb]. split.
    + apply elem_of_cons in Hin as [-> | Hin].
      * destruct (Z.min_spec x y) as [[_ ->] | [_ ->]]; in_list.
      * in_list. exact Hin.
    + intros z Hz. rewrite !elem_of_cons in Hz.
      assert (fold_left Z.min ys (Z.min x y) <= Z.min x y) by (apply Hlb; in_list).
      destruct Hz as [-> | [-> | Hz]]; [lia | lia |].
      apply Hlb. in_list. exact Hz.
Qed.

Lemma greatest_unique l m1 m2 : greatest l m1 -> greatest l m2 -> m1 = m2.
Proof. intros [I1 U1] [I2 U2]. specialize (U1 _ I2). specialize (U2 _ I1). lia. Qed.

Lemma least_unique l m1 m2 : least l m1 -> least l m2 -> m1 = m2.
Proof. intros [I1 U1] [I2 U2]. specialize (U1 _ I2). specialize (U2 _ I1). lia. Qed.

(** C7: the score is 100 for fewer than four cycles and when fewer than two
    of the cycles at positions 1..6 have a length in [21,45]; otherwise, with
    [variation] the greatest minus the least of those lengths, it is 100,
    80, 60, 40 or 20 as [variation] is at most 2, 4, 7, 10 or more; it
    always lies in [0,100]. *)
Theorem C7_regularity_step_function (cycles : list Cycle) :
  let lengths := filter validLength (map length (take 6 (drop 1 cycles))) in
  let score := getCycleRegularity cycles in
  ((List.length cycles < 4)%nat -> score = 100) /\
  ((List.length lengths < 2)%nat -> score = 100) /\
  ((4 <= List.length cycles)%nat -> (2 <= List.length lengths)%nat ->
   forall hi lo, greatest lengths hi -> least lengths lo ->
     let variation := hi - lo in
     (variation <= 2 -> score = 100) /\
     (2 < variation <= 4 -> score = 80) /\
     (4 < variation <= 7 -> score = 60) /\
     (7 < variation <= 10 -> score = 40) /\
     (10 < variation -> score = 20)) /\
  0 <= score <= 100.
Proof.
  intros lengths score. unfold score, getCycleRegularity. fold lengths.
  destruct (List.length cycles <? 4)%nat eqn:E4;
    [apply Nat.ltb_lt in E4 | apply Nat.ltb_ge in E4].
  { repeat split; try reflexivity; try lia. }
  destruct (List.length lengths <? 2)%nat eqn:E2;
    [apply Nat.ltb_lt in E2 | apply Nat.ltb_ge in E2].
  { repeat split; try reflexivity; try lia. }
  assert (Hstep : forall v : Z,
             0 <= (if v <=? 2 then 100 else if v <=? 4 then 80 else
                   if v <=? 7 then 60 else if v <=? 10 then 40 else 20) <= 100).
  { intros v. repeat (destruct (_ <=? _)); lia. }
  split; [intros; lia |]. split; [intros; lia |]. split; [| apply Hstep].
  intros _ _ hi lo Hhi Hlo. clearbody lengths.
  destruct lengths as [| x xs]; [cbn in E2; lia |].
  cbn [Math_max Math_min].
  rewrite <- (greatest_unique _ _ _ Hhi (fold_max_greatest xs x)).
  rewrite <- (least_unique _ _ _ Hlo (fold_min_least xs x)).
  repeat match goal with
         | |- context [?a <=? ?b] =>
             let E := fresh "E" in
             destruct (a <=? b) eqn:E;
             [apply Z.leb_le in E | apply Z.leb_gt in E]
         end; repeat split; intros; lia.
Qed.

Lemma C7_regularity_witness :
  getCycleRegularity
    [mkCycle (mkDate 2024 5 1) None 28; mkCycle (mkDate 2024 4 1) None 28;
     mkCycle (mkDate 2024 2 26) None 35; mkCycle (mkDate 2023 12 1) None 60;
     mkCycle (mkDate 2023 11 1) None 30] = 60.
Proof.
  refine (proj1 (proj2 (proj2 (proj1 (proj2 (proj2
           (C7_regularity_step_function
              [mkCycle (mkDate 2024 5 1) None 28; mkCycle (mkDate 2024 4 1) None 28;
               mkCycle (mkDate 2024 2 26) None 35; mkCycle (mkDate 2023 12 1) None 60;
               mkCycle (mkDate 2023 11 1) None 30])))
           _ _ 35 28 _ _))) _).
  - cbn. lia.
  - vm_compute. lia.
  - change (greatest [28; 35; 30] 35). split; [in_list |]. intros x Hx.
    rewrite !elem_of_cons in Hx. destruct Hx as [-> | [-> | [-> | Hx]]]; [lia | lia | lia |].
    inversion Hx.
  - change (least [28; 35; 30] 28). split; [in_list |]. intros x Hx.
    rewrite !elem_of_cons in Hx. destruct Hx as [-> | [-> | [-> | Hx]]]; [lia | lia | lia |].
    inversion Hx.
  - lia.
Defined.

(** ** Phase classifier *)

(** C4: the status is decided top to bottom: Not Started with
    [|daysDiff|] days to go when [daysDiff < 0]; otherwise, with
    [cycleDay = daysDiff + 1] and [daysLeft = smartLength - cycleDay], Late
    when [daysLeft < 0], else Menstruation when [cycleDay <= periodLength],
    else Fertile Window when [|cycleDay - (smartLength - 14)| <= 2], else
    Luteal when [cycleDay > smartLength - 14 + 2], else Follicular.  On the
    boundary, [cycleDay = periodLength] is Menstruation and
    [cycleDay = periodLength + 1] is Follicular outside the fertile and
    luteal windows.  The component applies this tree to the day difference
    of the local midnights, the smart length and the period length. *)
Theorem C4_phase_decision_tree (daysDiff smartLength periodLength : Z) :
  let st := wheelStatus daysDiff smartLength periodLength in
  let cycleDay := daysDiff + 1 in
  let daysLeft := smartLength - cycleDay in
  let ovulationDay := smartLength - 14 in
  (daysDiff < 0 -> st = NotStarted (Z.abs daysDiff)) /\
  (0 <= daysDiff ->
     (daysLeft < 0 -> st = Late (Z.abs daysLeft)) /\
     (0 <= daysLeft -> cycleDay <= periodLength -> st = Menstruation cycleDay) /\
     (0 <= daysLeft -> periodLength < cycleDay ->
        Z.abs (cycleDay - ovulationDay) <= 2 -> st = FertileWindow) /\
     (0 <= daysLeft -> periodLength < cycleDay ->
        2 < Z.abs (cycleDay - ovulationDay) -> ovulationDay + 2 < cycleDay ->
        st = LutealPhase daysLeft) /\
     (0 <= daysLeft -> periodLength < cycleDay ->
        2 < Z.abs (cycleDay - ovulationDay) -> cycleDay <= ovulationDay + 2 ->
        st = FollicularPhase cycleDay)) /\
  (0 <= daysDiff -> 0 <= daysLeft -> cycleDay = periodLength -> st = Menstruation cycleDay) /\
  (0 <= daysDiff -> 0 <= daysLeft -> cycleDay = periodLength + 1 ->
     2 < Z.abs (cycleDay - ovulationDay) -> cycleDay <= ovulationDay + 2 ->
     st = FollicularPhase cycleDay) /\
  (forall zone today latestCycle settings cycles,
     daysDiff = wheelDaysDiff zone today latestCycle ->
     smartLength = calculateSmartCycleAverage cycles (avgCycleLength settings) ->
     periodLength = (if avgPeriodLength settings =? 0 then 5 else avgPeriodLength settings) ->
     CycleWheel zone today latestCycle settings cycles = st).
Proof.
  intros st cycleDay daysLeft ovulationDay.
  assert (T : forall P : Prop, (0 <= daysDiff -> P) -> 0 <= daysDiff -> P) by auto.
  unfold st, wheelStatus.
  destruct (daysDiff <? 0) eqn:E0; [apply Z.ltb_lt in E0 | apply Z.ltb_ge in E0].
  { repeat split; intros; try lia; try reflexivity.
    subst. unfold CycleWheel, wheelStatus.
    destruct (wheelDaysDiff zone today latestCycle <? 0) eqn:E; [reflexivity |].
    apply Z.ltb_ge in E. lia. }
  rewrite (Z.max_r 1 (daysDiff + 1)) by lia.
  fold cycleDay daysLeft ovulationDay.
  assert (Hlast : forall zone today latestCycle settings cycles,
     daysDiff = wheelDaysDiff zone today latestCycle ->
     smartLength = calculateSmartCycleAverage cycles (avgCycleLength settings) ->
     periodLength = (if avgPeriodLength settings =? 0 then 5 else avgPeriodLength settings) ->
     CycleWheel zone today latestCycle settings cycles =
     wheelStatus daysDiff smartLength periodLength).
  { intros. subst. reflexivity. }
  unfold wheelStatus in Hlast.
  replace (daysDiff <? 0) with false in Hlast by (symmetry; apply Z.ltb_ge; lia).
  rewrite (Z.max_r 1 (daysDiff + 1)) in Hlast by lia.
  fold cycleDay daysLeft ovulationDay in Hlast.
  split; [lia |].
  repeat match goal with
         | |- context [?a <? ?b] =>
             let E := fresh "E" in
             destruct (a <? b) eqn:E;
             [apply Z.ltb_lt in E | apply Z.ltb_ge in E]
         | |- context [?a <=? ?b] =>
             let E := fresh "E" in
             destruct (a <=? b) eqn:E;
             [apply Z.leb_le in E | apply Z.leb_gt in E]
         end;
    (split; [intros _; repeat split; intros; first [reflexivity | lia] |]);
    (split; [intros; first [reflexivity | lia] |]);
    (split; [intros; first [reflexivity | lia] |]);
    exact Hlast.
Qed.

(** ** Day difference *)

Lemma MakeDay_in_year y m d :
  0 <= m <= 11 ->
  JS.MakeDay y m d =
  JS.DayFromYear y + JS.monthStart (if JS.isLeap y then 1 else 0) m + d - 1.
Proof.
  intros H. unfold JS.MakeDay.
  rewrite (Z.div_small m 12), (Z.mod_small m 12) by lia.
  rewrite Z.add_0_r. reflexivity.
Qed.

Lemma valid_calendar_date d : valid_date d = true -> calendar_date d.
Proof.
  unfold valid_date, calendar_date. rewrite !andb_true_iff, !Z.leb_le. tauto.
Qed.

Lemma daysInMonth_pos y m : 1 <= daysInMonth y m.
Proof.
  unfold daysInMonth.
  destruct m as [| [[[[| |] | [| |] | ] | [[| |] | [| |] | ] | ] | [[| |] | [| |] | ] | ] |];
    try destruct (JS.isLeap y); lia.
Qed.

Lemma tomorrow_calendar d : calendar_date d -> calendar_date (tomorrow d).
Proof.
  destruct d as [y m dd]. unfold calendar_date, tomorrow. cbn [year month day].
  intros [Hm Hd].
  destruct (dd <? daysInMonth y m) eqn:E1; [apply Z.ltb_lt in E1 | apply Z.ltb_ge in E1];
    cbn [year month day]; [lia |].
  destruct (m <? 12) eqn:E2; [apply Z.ltb_lt in E2 | apply Z.ltb_ge in E2];
    cbn [year month day].
  - pose proof (daysInMonth_pos y (m + 1)). lia.
  - pose proof (daysInMonth_pos (y + 1) 1). lia.
Qed.

(** The day number of the next calendar date is the next day number. *)
Lemma Day_tomorrow d :
  calendar_date d -> JS.Day (Date_parse (tomorrow d)) = JS.Day (Date_parse d) + 1.
Proof.
  destruct d as [y m dd]. unfold calendar_date, tomorrow. cbn [year month day].
  intros [Hm Hd]. rewrite !Day_Date_parse.
  destruct (dd <? daysInMonth y m) eqn:E1; [apply Z.ltb_lt in E1 | apply Z.ltb_ge in E1];
    cbn [year month day].
  - rewrite !MakeDay_in_year by lia. lia.
  - destruct (m <? 12) eqn:E2; [apply Z.ltb_lt in E2 | apply Z.ltb_ge in E2];
      cbn [year month day].
    + rewrite !MakeDay_in_year by lia.
      pose proof (monthStart_step y m ltac:(lia)) as St.
      replace (m + 1 - 1) with m by lia. lia.
    + assert (m = 12) by lia. subst m.
      rewrite !MakeDay_in_year by lia.
      rewrite DayFromYear_succ. unfold JS.DaysInYear.
      cbn [daysInMonth] in *. change (12 - 1) with 11. change (1 - 1) with 0.
      cbn [JS.monthStart]. destruct (JS.isLeap y); destruct (JS.isLeap (y + 1)); lia.
Qed.

Lemma Day_iter_tomorrow n d :
  calendar_date d ->
  calendar_date (Nat.iter n tomorrow d) /\
  JS.Day (Date_parse (Nat.iter n tomorrow d)) = JS.Day (Date_parse d) + Z.of_nat n.
Proof.
  intros Hd. induction n as [| n [IHc IHd]].
  - cbn. split; [exact Hd | lia].
  - cbn [Nat.iter nat_rect]. split; [apply tomorrow_calendar, IHc |].
    change (nat_rect _ d (fun _ => tomorrow) n) with (Nat.iter n tomorrow d).
    rewrite Day_tomorrow by exact IHc. lia.
Qed.

Lemma Date_parse_whole_days d : Date_parse d = JS.Day (Date_parse d) * JS.msPerDay.
Proof.
  rewrite Day_Date_parse. unfold Date_parse, JS.MakeDate. lia.
Qed.

Lemma Date_parse_difference d1 d2 :
  Date_parse d2 - Date_parse d1 =
  (JS.Day (Date_parse d2) - JS.Day (Date_parse d1)) * JS.msPerDay.
Proof.
  pose proof (Date_parse_whole_days d1). pose proof (Date_parse_whole_days d2). lia.
Qed.

Lemma diffDaysBetween_days d1 d2 :
  diffDaysBetween d1 d2 = JS.Day (Date_parse d2) - JS.Day (Date_parse d1).
Proof.
  unfold diffDaysBetween. rewrite Date_parse_difference.
  change (1000 * 3600 * 24) with JS.msPerDay. apply Z.div_mul. discriminate.
Qed.

(** C5: for valid dates the difference of the two time values is a whole
    number of days, and [diffDaysBetween d1 d2] is that number: the quotient
    truncated towards zero, with its sign ([d2] before [d1] gives the
    opposite), counting calendar days ([d2] that is [n] days after [d1]
    gives [n]). *)
Theorem C5_signed_whole_day_difference (d1 d2 : ISODate) :
  valid_date d1 = true -> valid_date d2 = true ->
  diffDaysBetween d1 d2 = Z.quot (Date_parse d2 - Date_parse d1) JS.msPerDay /\
  Date_parse d2 - Date_parse d1 = diffDaysBetween d1 d2 * JS.msPerDay /\
  diffDaysBetween d2 d1 = - diffDaysBetween d1 d2 /\
  (forall n : nat, d2 = Nat.iter n tomorrow d1 ->
     diffDaysBetween d1 d2 = Z.of_nat n /\ diffDaysBetween d2 d1 = - Z.of_nat n).
Proof.
  intros V1 V2. rewrite !diffDaysBetween_days.
  pose proof (Date_parse_difference d1 d2) as E.
  split; [| split; [exact E | split; [lia |]]].
  - rewrite E. symmetry. apply Z.quot_mul. discriminate.
  - intros n ->.
    destruct (Day_iter_tomorrow n d1 (valid_calendar_date _ V1)) as [_ ->]. lia.
Qed.

Lemma C5_signed_whole_day_difference_witness :
  diffDaysBetween (mkDate 2024 3 1) (mkDate 2024 2 27) = -3.
Proof.
  refine (proj2 (proj2 (proj2 (proj2
            (C5_signed_whole_day_difference (mkDate 2024 2 27) (mkDate 2024 3 1)
               eq_refl eq_refl))) 3%nat eq_refl)).
Defined.

(** The exported [diffDays] is the other utility: the distance, without its
    sign. *)
Lemma diffDays_is_absolute d1 d2 : diffDays d1 d2 = Z.abs (diffDaysBetween d1 d2).
Proof.
  rewrite diffDaysBetween_days. unfold diffDays, ceil_div.
  rewrite Date_parse_difference.
  change (1000 * 60 * 60 * 24) with JS.msPerDay.
  rewrite Z.abs_mul. change (Z.abs JS.msPerDay) with JS.msPerDay.
  rewrite <- Z.mul_opp_l, Z.div_mul by discriminate. lia.
Qed.

(** ** The local date of a time value *)

Lemma getTimezoneOffset_zone zone t : getTimezoneOffset zone t = - zone t true.
Proof.
  unfold getTimezoneOffset, LocalTime, LocalTZA.
  replace (t - (t + zone t true * JS.msPerMinute)) with ((- zone t true) * JS.msPerMinute) by lia.
  apply Z.div_mul. discriminate.
Qed.

Lemma formatDateISO_local zone t : formatDateISO zone t = toISODate (LocalTime zone t).
Proof.
  unfold formatDateISO. rewrite getTimezoneOffset_zone. f_equal.
  unfold LocalTime, LocalTZA, JS.msPerMinute. lia.
Qed.

Lemma Day_formatDateISO zone t :
  JS.Day (Date_parse (formatDateISO zone t)) = JS.Day (LocalTime zone t).
Proof.
  rewrite formatDateISO_local, Date_parse_toISODate. apply Z.div_mul. discriminate.
Qed.

Lemma toISODate_same_day t1 t2 : JS.Day t1 = JS.Day t2 -> toISODate t1 = toISODate t2.
Proof. unfold toISODate. intros ->. reflexivity. Qed.

(** East of Greenwich (and at UTC) the local date of a date's UTC midnight
    is that date. *)
Lemma formatDateISO_Date_parse_east zone d :
  zone_east_of_UTC zone -> valid_date d = true ->
  formatDateISO zone (Date_parse d) = d.
Proof.
  intros Hz Hd. rewrite formatDateISO_local.
  rewrite <- (toISODate_Date_parse d Hd) at 2. apply toISODate_same_day.
  unfold LocalTime, LocalTZA. specialize (Hz (Date_parse d)).
  pose proof (Date_parse_whole_days d) as Hw.
  set (z := zone (Date_parse d) true) in *. clearbody z.
  set (t := Date_parse d) in *. clearbody t.
  unfold JS.Day, JS.msPerDay, JS.msPerMinute in *.
  Z.div_mod_to_equations. lia.
Qed.

(** More than seven days apart in UTC is a later local date. *)
Lemma local_day_lt zone t1 t2 :
  zone_within_a_day zone ->
  7 * (1000 * 3600 * 24) < t2 - t1 ->
  JS.Day (LocalTime zone t1) < JS.Day (LocalTime zone t2).
Proof.
  intros Hz Hgap. pose proof (Hz t1). pose proof (Hz t2).
  unfold LocalTime, LocalTZA, JS.Day, JS.msPerDay, JS.msPerMinute.
  Z.div_mod_to_equations. lia.
Qed.

(** ** The sort *)

Lemma insertByTime_Forall (P : DailyLog -> Prop) x l :
  P x -> Forall P l -> Forall P (insertByTime x l).
Proof.
  intros Hx. induction 1 as [| y l Hy Hl IH]; cbn [insertByTime].
  - constructor; [exact Hx | constructor].
  - destruct (Date_parse (date y) <? Date_parse (date x)); repeat constructor; assumption.
Qed.

Lemma insertByTime_sorted x l :
  StronglySorted byTime l -> StronglySorted byTime (insertByTime x l).
Proof.
  induction 1 as [| y l Hl IH Hy]; cbn [insertByTime].
  - repeat constructor.
  - destruct (Date_parse (date y) <? Date_parse (date x)) eqn:E;
      [apply Z.ltb_lt in E | apply Z.ltb_ge in E].
    + constructor; [exact IH |].
      apply insertByTime_Forall; [unfold byTime, logTime; lia | exact Hy].
    + constructor; [constructor; assumption |].
      constructor; [exact E |].
      eapply Forall_impl; [exact Hy |]. unfold byTime, logTime. intros; lia.
Qed.

Lemma sortByTime_sorted l : StronglySorted byTime (sortByTime l).
Proof.
  induction l as [| x l IH]; cbn; [constructor | apply insertByTime_sorted, IH].
Qed.

(** A list already in order is left as it is. *)
Lemma sortByTime_of_sorted l : StronglySorted byTime l -> sortByTime l = l.
Proof.
  induction 1 as [| x l Hl IH Hx]; [reflexivity |].
  cbn [sortByTime foldr]. fold (sortByTime l). rewrite IH.
  destruct l as [| y l]; [reflexivity |]. cbn [insertByTime].
  inversion Hx as [| ? ? Hxy _]; subst. unfold byTime, logTime in Hxy.
  destruct (Date_parse (date y) <? Date_parse (date x)) eqn:E; [| reflexivity].
  apply Z.ltb_lt in E. lia.
Qed.

Lemma filter_all_flow l : Forall isFlowLog l -> filter isFlowLog l = l.
Proof.
  induction 1 as [| x l Hx Hl IH]; [reflexivity |].
  rewrite filter_cons_True by exact Hx. congruence.
Qed.

(** ** Cycle segmenter *)

Lemma sortByTime_nil l : sortByTime l = [] -> l = [].
Proof.
  destruct l as [| x l]; [reflexivity |]. cbn [sortByTime foldr].
  destruct (foldr insertByTime [] l) as [| y l']; cbn [insertByTime]; [discriminate |].
  destruct (_ <? _); discriminate.
Qed.

Lemma analyze_unfold zone logs d :
  analyzeCyclesFromLogs zone logs d =
  match sortByTime (filter isFlowLog logs) with
  | [] => []
  | l0 :: rest => scanResult zone (scanFrom zone l0 rest) d
  end.
Proof. reflexivity. Qed.

Lemma analyze_sorted_flow zone l0 rest d :
  Forall isFlowLog (l0 :: rest) -> StronglySorted byTime (l0 :: rest) ->
  analyzeCyclesFromLogs zone (l0 :: rest) d = scanResult zone (scanFrom zone l0 rest) d.
Proof.
  intros Hf Hs. rewrite analyze_unfold, filter_all_flow, sortByTime_of_sorted by assumption.
  reflexivity.
Qed.

Lemma scanFrom_snoc zone l0 rest x :
  scanFrom zone l0 (rest ++ [x]) = scanStep zone (scanFrom zone l0 rest) x.
Proof. unfold scanFrom. rewrite fold_left_app. reflexivity. Qed.

Lemma scanStep_last zone st l : lastFlowLogDate (scanStep zone st l) = logTime l.
Proof. unfold scanStep. destruct (_ <? _); reflexivity. Qed.

Lemma scanFrom_last zone l0 rest prev :
  last (l0 :: rest) = Some prev -> lastFlowLogDate (scanFrom zone l0 rest) = logTime prev.
Proof.
  destruct rest as [| y rest _] using rev_ind.
  - cbn. intros [= ->]. reflexivity.
  - rewrite app_comm_cons, last_snoc. intros [= ->].
    rewrite scanFrom_snoc. apply scanStep_last.
Qed.

Lemma newerThan_days a b :
  newerThan a b <-> JS.Day (Date_parse (startDate b)) < JS.Day (Date_parse (startDate a)).
Proof.
  unfold newerThan.
  pose proof (Date_parse_whole_days (startDate a)).
  pose proof (Date_parse_whole_days (startDate b)).
  unfold JS.msPerDay in *. lia.
Qed.

Lemma scanStep_invariant zone st l :
  zone_within_a_day zone ->
  scanInvariant zone st -> lastFlowLogDate st <= logTime l ->
  scanInvariant zone (scanStep zone st l).
Proof.
  intros Hz (Hle & Hs & Hb) Hl. unfold scanStep. fold (logTime l).
  destruct (7 * (1000 * 3600 * 24) <? logTime l - lastFlowLogDate st) eqn:E;
    [apply Z.ltb_lt in E | apply Z.ltb_ge in E]; unfold scanInvariant; cbn [cycles currentCycleStart lastFlowLogDate].
  - assert (Hlt : JS.Day (LocalTime zone (currentCycleStart st)) <
                  JS.Day (LocalTime zone (logTime l)))
      by (apply local_day_lt; [exact Hz | lia]).
    split; [lia |]. split.
    + apply StronglySorted_app_2; [| exact Hs | repeat constructor].
      intros c1 c2 H1 H2. apply list_elem_of_singleton in H2. subst c2.
      apply newerThan_days. cbn [startDate]. rewrite Day_formatDateISO.
      rewrite Forall_forall in Hb. apply Hb, H1.
    + apply Forall_app. split.
      * eapply Forall_impl; [exact Hb |]. cbn. intros; lia.
      * constructor; [| constructor]. cbn [startDate]. rewrite Day_formatDateISO. exact Hlt.
  - split; [lia |]. split; assumption.
Qed.

Lemma scan_invariant zone rest st :
  zone_within_a_day zone ->
  scanInvariant zone st ->
  StronglySorted byTime rest ->
  Forall (fun l => lastFlowLogDate st <= logTime l) rest ->
  scanInvariant zone (fold_left (scanStep zone) rest st).
Proof.
  intros Hz. revert st. induction rest as [| x rest IH]; intros st Hi Hs Hl; [exact Hi |].
  cbn [fold_left]. inversion Hs as [| ? ? Hs' Hx]; subst.
  inversion Hl as [| ? ? Hlx Hl']; subst.
  apply IH; [apply scanStep_invariant; assumption | exact Hs' |].
  rewrite scanStep_last. exact Hx.
Qed.

Lemma StronglySorted_rev_flip {A} (R : A -> A -> Prop) l :
  StronglySorted (fun a b => R b a) l -> StronglySorted R (rev l).
Proof.
  induction 1 as [| x l Hl IH Hx]; cbn [rev]; [constructor |].
  apply StronglySorted_app_2; [| exact IH | repeat constructor].
  intros a b Ha Hb. apply list_elem_of_singleton in Hb. subst b.
  rewrite Forall_forall in Hx. apply Hx.
  apply list_elem_of_In, in_rev, list_elem_of_In. exact Ha.
Qed.

Lemma scanResult_sorted zone st d :
  scanInvariant zone st -> StronglySorted newerThan (scanResult zone st d).
Proof.
  intros (_ & Hs & Hb). unfold scanResult. rewrite rev_app_distr. cbn [rev app].
  constructor; [apply StronglySorted_rev_flip, Hs |].
  apply Forall_forall. intros c Hc. apply list_elem_of_In, in_rev, list_elem_of_In in Hc.
  rewrite Forall_forall in Hb. apply newerThan_days. cbn [startDate].
  rewrite Day_formatDateISO. apply Hb, Hc.
Qed.

(** *** The order of the date strings is the order of the days *)

Lemma toISODate_calendar t : calendar_date (toISODate t).
Proof.
  unfold calendar_date, toISODate. cbn [year month day].
  set (d := JS.Day t).
  pose proof (DayWithinYear_range d) as R.
  assert (HL : 0 <= JS.InLeapYear d <= 1)
    by (unfold JS.InLeapYear; destruct (JS.isLeap _); lia).
  pose proof (monthOfYearDay_spec _ _ HL R) as [Hm Hw].
  fold (JS.MonthFromDay d) in Hm, Hw.
  pose proof (monthStart_step (JS.YearFromDay d) (JS.MonthFromDay d + 1) ltac:(lia)) as St.
  fold (JS.InLeapYear d) in St.
  replace (JS.MonthFromDay d + 1 - 1) with (JS.MonthFromDay d) in St by lia.
  unfold JS.DateFromDay. lia.
Qed.

Lemma MakeDay_year_range y m d :
  calendar_date (mkDate y m d) ->
  JS.DayFromYear y <= JS.MakeDay y (m - 1) d < JS.DayFromYear (y + 1).
Proof.
  unfold calendar_date. cbn [year month day]. intros [Hm Hd].
  rewrite MakeDay_in_year by lia. rewrite DayFromYear_succ. unfold JS.DaysInYear.
  set (L := if JS.isLeap y then 1 else 0).
  assert (HL : 0 <= L <= 1) by (unfold L; destruct (JS.isLeap y); lia).
  pose proof (monthStart_step y m ltac:(lia)) as St. fold L in St.
  pose proof (monthStart_bound L (m - 1) HL ltac:(lia)).
  pose proof (monthStart_bound L m HL ltac:(lia)).
  unfold L in *. destruct (JS.isLeap y); lia.
Qed.

Lemma ISODate_lt_days a b :
  calendar_date a -> calendar_date b ->
  ISODate_lt a b -> JS.Day (Date_parse a) < JS.Day (Date_parse b).
Proof.
  destruct a as [ya ma da], b as [yb mb db]. intros Ha Hb.
  pose proof (MakeDay_year_range _ _ _ Ha) as Ra.
  pose proof (MakeDay_year_range _ _ _ Hb) as Rb.
  rewrite !Day_Date_parse. unfold ISODate_lt. cbn [year month day].
  unfold calendar_date in Ha, Hb. cbn [year month day] in Ha, Hb.
  intros [Hy | [-> [Hm | [-> Hd]]]].
  - pose proof (DayFromYear_mono (ya + 1) yb ltac:(lia)). lia.
  - rewrite !MakeDay_in_year by lia.
    set (L := if JS.isLeap yb then 1 else 0).
    assert (HL : 0 <= L <= 1) by (unfold L; destruct (JS.isLeap yb); lia).
    pose proof (monthStart_step yb ma ltac:(lia)) as St. fold L in St.
    pose proof (monthStart_mono L ma (mb - 1) HL ltac:(lia) ltac:(lia) ltac:(lia)).
    lia.
  - rewrite !MakeDay_in_year by lia. lia.
Qed.

Lemma ISODate_lt_total a b : ISODate_lt a b \/ a = b \/ ISODate_lt b a.
Proof.
  destruct a as [ya ma da], b as [yb mb db]. unfold ISODate_lt. cbn [year month day].
  destruct (Z.lt_trichotomy ya yb) as [? | [-> | ?]]; [lia | | lia].
  destruct (Z.lt_trichotomy ma mb) as [? | [-> | ?]]; [lia | | lia].
  destruct (Z.lt_trichotomy da db) as [? | [-> | ?]]; [lia | auto | lia].
Qed.

(** On calendar dates the time value and the string order agree. *)
Lemma Date_parse_lt_iff a b :
  calendar_date a -> calendar_date b ->
  (Date_parse a < Date_parse b <-> ISODate_lt a b).
Proof.
  intros Ha Hb.
  pose proof (Date_parse_whole_days a) as Wa. pose proof (Date_parse_whole_days b) as Wb.
  split.
  - intros Hlt. destruct (ISODate_lt_total a b) as [H | [-> | H]]; [exact H | lia |].
    pose proof (ISODate_lt_days b a Hb Ha H). unfold JS.msPerDay in *. lia.
  - intros H. pose proof (ISODate_lt_days a b Ha Hb H). unfold JS.msPerDay in *. lia.
Qed.

Lemma formatDateISO_calendar zone t : calendar_date (formatDateISO zone t).
Proof. rewrite formatDateISO_local. apply toISODate_calendar. Qed.

Lemma scanStep_calendar zone st l :
  Forall (fun c => calendar_date (startDate c)) (cycles st) ->
  Forall (fun c => calendar_date (startDate c)) (cycles (scanStep zone st l)).
Proof.
  intros H. unfold scanStep. destruct (_ <? _); cbn [cycles]; [| exact H].
  apply Forall_app. split; [exact H |].
  constructor; [apply formatDateISO_calendar | constructor].
Qed.

Lemma scan_calendar zone rest st :
  Forall (fun c => calendar_date (startDate c)) (cycles st) ->
  Forall (fun c => calendar_date (startDate c)) (cycles (fold_left (scanStep zone) rest st)).
Proof.
  revert st. induction rest as [| x rest IH]; intros st H; [exact H |].
  cbn [fold_left]. apply IH, scanStep_calendar, H.
Qed.

(** Every start date the segmenter returns is a calendar date. *)
Lemma analyze_calendar zone logs d :
  Forall (fun c => calendar_date (startDate c)) (analyzeCyclesFromLogs zone logs d).
Proof.
  rewrite analyze_unfold. destruct (sortByTime (filter isFlowLog logs)) as [| l0 rest];
    [constructor |].
  unfold scanResult. apply Forall_forall. intros c Hc.
  apply list_elem_of_In, in_rev, list_elem_of_In in Hc.
  apply elem_of_app in Hc as [Hc | Hc].
  - pose proof (scan_calendar zone rest (mkScan [] (logTime l0) (logTime l0))
                  ltac:(constructor)) as H.
    rewrite Forall_forall in H. apply H, Hc.
  - apply list_elem_of_singleton in Hc. subst c. apply formatDateISO_calendar.
Qed.

Lemma newest_first_as_strings l :
  Forall (fun c => calendar_date (startDate c)) l ->
  StronglySorted newerThan l ->
  StronglySorted (fun a b => ISODate_lt (startDate b) (startDate a)) l.
Proof.
  intros Hc Hs. induction Hs as [| c l Hs IH Hall]; [constructor |].
  inversion Hc as [| ? ? Hc1 Hc2]; subst. constructor; [apply IH, Hc2 |].
  rewrite Forall_forall in *. intros c' Hc'.
  apply Date_parse_lt_iff; [apply Hc2, Hc' | exact Hc1 | apply Hall, Hc'].
Qed.

(** C9: in any zone whose local time is within a day of UTC and for logs
    with valid dates, the list
    returned is strictly descending in [startDate], as dates and as strings;
    it is empty exactly when no log qualifies, and otherwise its first
    element carries [defaultCycleLen] and starts after every other cycle of
    the list: it is the open, most recent cycle. *)
Theorem C9_newest_first_open_cycle_first
    (zone : Z -> bool -> Z) (logs : list DailyLog) (defaultCycleLen : Z) :
  zone_within_a_day zone -> validDates logs ->
  let result := analyzeCyclesFromLogs zone logs defaultCycleLen in
  StronglySorted newerThan result /\
  StronglySorted (fun a b => ISODate_lt (startDate b) (startDate a)) result /\
  (result = [] <-> filter isFlowLog logs = []) /\
  (forall c, result !! 0%nat = Some c ->
     length c = defaultCycleLen /\ endDate c = None /\
     forall i c', result !! S i = Some c' -> newerThan c c').
Proof.
  intros Hz _ result.
  pose proof (analyze_calendar zone logs defaultCycleLen) as Hcal. fold result in Hcal.
  enough (H : StronglySorted newerThan result /\
              (result = [] <-> filter isFlowLog logs = []) /\
              (forall c, result !! 0%nat = Some c ->
                 length c = defaultCycleLen /\ endDate c = None /\
                 forall i c', result !! S i = Some c' -> newerThan c c')).
  { destruct H as (H1 & H2 & H3). repeat split; try assumption;
      try apply H2; try apply (H3 c); try assumption.
    apply newest_first_as_strings; assumption. }
  clear Hcal. unfold result. rewrite analyze_unfold.
  pose proof (sortByTime_sorted (filter isFlowLog logs)) as Hs.
  destruct (sortByTime (filter isFlowLog logs)) as [| l0 rest] eqn:E.
  - split; [constructor |]. split; [| intros c; discriminate].
    split; [intros _; apply sortByTime_nil, E | reflexivity].
  - assert (Hi : scanInvariant zone (scanFrom zone l0 rest)).
    { inversion Hs as [| ? ? Hs' Hl0]; subst. apply scan_invariant; try assumption.
      split; [cbn; lia |]. split; constructor. }
    pose proof (scanResult_sorted zone _ defaultCycleLen Hi) as Hsorted.
    split; [exact Hsorted |]. split.
    + split; [| intros H; rewrite H in E; discriminate].
      unfold scanResult. rewrite rev_app_distr. discriminate.
    + unfold scanResult in *. rewrite rev_app_distr in *. cbn [rev app] in *.
      intros c [= <-]. cbn [length endDate]. repeat split.
      intros i c' Hc'. cbn in Hc'.
      inversion Hsorted as [| ? ? _ Hall]; subst.
      rewrite Forall_forall in Hall. apply Hall.
      eapply list_elem_of_lookup_2. exact Hc'.
Qed.

Lemma C9_newest_first_witness :
  zone_within_a_day zoneWest5 /\
  StronglySorted newerThan
    (analyzeCyclesFromLogs zoneWest5
       [mkLog (mkDate 2024 2 27) (Some Heavy); mkLog (mkDate 2024 1 1) (Some Medium);
        mkLog (mkDate 2024 1 2) (Some Light); mkLog (mkDate 2024 1 30) (Some Medium)] 28).
Proof.
  assert (Hz : zone_within_a_day zoneWest5) by (intros t; unfold zoneWest5, fixedZone; lia).
  split; [exact Hz |].
  refine (proj1 (C9_newest_first_open_cycle_first zoneWest5
    [mkLog (mkDate 2024 2 27) (Some Heavy); mkLog (mkDate 2024 1 1) (Some Medium);
     mkLog (mkDate 2024 1 2) (Some Light); mkLog (mkDate 2024 1 30) (Some Medium)] 28 Hz _)).
  repeat constructor.
Defined.

(** *** The boundary between two consecutive qualifying logs *)

Lemma scanStep_gap zone st l prev :
  lastFlowLogDate st = logTime prev ->
  scanStep zone st l =
  if 7 <? diffDaysBetween (date prev) (date l) then
    mkScan (cycles st ++
            [mkCycle (formatDateISO zone (currentCycleStart st)) None
               (diffDaysBetween (formatDateISO zone (currentCycleStart st))
                                (formatDateISO zone (logTime l)))])
           (logTime l) (logTime l)
  else mkScan (cycles st) (currentCycleStart st) (logTime l).
Proof.
  intros Hlast. unfold scanStep. rewrite Hlast. fold (logTime l).
  rewrite (diffDaysBetween_days (date prev) (date l)).
  pose proof (Date_parse_whole_days (date prev)) as Wp.
  pose proof (Date_parse_whole_days (date l)) as Wl.
  fold (logTime prev) in *. fold (logTime l) in *.
  destruct (7 * (1000 * 3600 * 24) <? logTime l - logTime prev) eqn:E1;
    destruct (7 <? JS.Day (logTime l) - JS.Day (logTime prev)) eqn:E2;
    try reflexivity;
    rewrite ?Z.ltb_lt, ?Z.ltb_ge in *; unfold JS.msPerDay in *; lia.
Qed.

Lemma boundary_rule
    (zone : Z -> bool -> Z) (ls : list DailyLog) (prev x : DailyLog) (d : Z) :
  Forall isFlowLog (ls ++ [prev; x]) ->
  StronglySorted byTime (ls ++ [prev; x]) ->
  let gap := diffDaysBetween (date prev) (date x) in
  let thisStart := formatDateISO zone (Date_parse (date x)) in
  (gap <= 7 ->
     analyzeCyclesFromLogs zone (ls ++ [prev; x]) d =
     analyzeCyclesFromLogs zone (ls ++ [prev]) d) /\
  (8 <= gap ->
     exists prevStart rest,
       analyzeCyclesFromLogs zone (ls ++ [prev]) d = mkCycle prevStart None d :: rest /\
       analyzeCyclesFromLogs zone (ls ++ [prev; x]) d =
       mkCycle thisStart None d ::
       mkCycle prevStart None (diffDaysBetween prevStart thisStart) :: rest).
Proof.
  replace (ls ++ [prev; x]) with ((ls ++ [prev]) ++ [x])
    by (rewrite <- app_assoc; reflexivity).
  intros Hf Hs gap thisStart.
  apply Forall_app in Hf as [Hf Hx]. pose proof (StronglySorted_app_1_l _ _ _ Hs) as Hs1.
  assert (Hlast : last (ls ++ [prev]) = Some prev) by apply last_snoc.
  destruct (ls ++ [prev]) as [| l0 rest0] eqn:E; [discriminate |].
  assert (Hfx : Forall isFlowLog (l0 :: rest0 ++ [x]))
    by (rewrite app_comm_cons; apply Forall_app; split; assumption).
  rewrite <- app_comm_cons in *.
  rewrite (analyze_sorted_flow zone l0 rest0 d Hf Hs1).
  rewrite (analyze_sorted_flow zone l0 (rest0 ++ [x]) d Hfx Hs).
  rewrite scanFrom_snoc.
  rewrite (scanStep_gap zone _ x prev (scanFrom_last zone l0 rest0 prev Hlast)).
  fold gap. unfold scanResult.
  destruct (7 <? gap) eqn:Eg; [apply Z.ltb_lt in Eg | apply Z.ltb_ge in Eg].
  - split; [lia |]. intros _.
    exists (formatDateISO zone (currentCycleStart (scanFrom zone l0 rest0))),
           (rev (cycles (scanFrom zone l0 rest0))).
    cbn [cycles currentCycleStart]. rewrite !rev_app_distr. cbn [rev app].
    split; reflexivity.
  - split; [| lia]. intros _. reflexivity.
Qed.

(** The boundary rule, for two consecutive logs [prev] and [x] at the end of
    a list of qualifying logs with valid dates, in date order, in any zone: with a gap of at
    most seven days [x] changes nothing; with a gap of eight days or more
    the open cycle is closed with its start date and the day difference
    from that start to the start of the new cycle, and [x] opens the new
    one. *)
Theorem segmenter_boundary
    (zone : Z -> bool -> Z) (ls : list DailyLog) (prev x : DailyLog) (d : Z) :
  validDates (ls ++ [prev; x]) ->
  Forall isFlowLog (ls ++ [prev; x]) ->
  StronglySorted byTime (ls ++ [prev; x]) ->
  let gap := diffDaysBetween (date prev) (date x) in
  let thisStart := formatDateISO zone (Date_parse (date x)) in
  (gap <= 7 ->
     analyzeCyclesFromLogs zone (ls ++ [prev; x]) d =
     analyzeCyclesFromLogs zone (ls ++ [prev]) d) /\
  (8 <= gap ->
     exists prevStart rest,
       analyzeCyclesFromLogs zone (ls ++ [prev]) d = mkCycle prevStart None d :: rest /\
       analyzeCyclesFromLogs zone (ls ++ [prev; x]) d =
       mkCycle thisStart None d ::
       mkCycle prevStart None (diffDaysBetween prevStart thisStart) :: rest).
Proof. intros _. exact (boundary_rule zone ls prev x d). Qed.

Lemma segmenter_boundary_witness :
  analyzeCyclesFromLogs zoneWest5
    [mkLog (mkDate 2024 1 1) (Some Medium); mkLog (mkDate 2024 1 3) (Some Light);
     mkLog (mkDate 2024 1 11) (Some Heavy)] 28 =
  [mkCycle (mkDate 2024 1 10) None 28; mkCycle (mkDate 2023 12 31) None 10].
Proof.
  destruct (proj2 (segmenter_boundary zoneWest5
                     [mkLog (mkDate 2024 1 1) (Some Medium)]
                     (mkLog (mkDate 2024 1 3) (Some Light))
                     (mkLog (mkDate 2024 1 11) (Some Heavy)) 28
                     ltac:(repeat constructor)
                     ltac:(repeat constructor; cbn; discriminate)
                     ltac:(repeat constructor; unfold byTime; vm_compute; discriminate))
            ltac:(vm_compute; discriminate))
    as (prevStart & rest & H1 & H2).
  reflexivity.
Defined.

Lemma analyze_single zone a d :
  isFlowLog a ->
  analyzeCyclesFromLogs zone [a] d = [mkCycle (formatDateISO zone (Date_parse (date a))) None d].
Proof.
  intros Ha. rewrite analyze_sorted_flow; [reflexivity | repeat constructor; exact Ha |].
  repeat constructor.
Qed.

(** In a zone at or east of UTC the start dates are the dates of the logs:
    two qualifying logs at most seven days apart give the one open cycle
    starting at the first; eight days or more apart they give two cycles,
    the closed one as long as the gap. *)
Theorem segmenter_two_logs_east_of_UTC
    (zone : Z -> bool -> Z) (a b : DailyLog) (d : Z) :
  zone_east_of_UTC zone ->
  valid_date (date a) = true -> valid_date (date b) = true ->
  isFlowLog a -> isFlowLog b ->
  let gap := diffDaysBetween (date a) (date b) in
  0 <= gap ->
  (gap <= 7 -> analyzeCyclesFromLogs zone [a; b] d = [mkCycle (date a) None d]) /\
  (8 <= gap ->
     analyzeCyclesFromLogs zone [a; b] d =
     [mkCycle (date b) None d; mkCycle (date a) None gap]).
Proof.
  intros Hz Va Vb Ha Hb gap Hgap.
  assert (Hs : StronglySorted byTime ([] ++ [a; b])).
  { cbn [app]. repeat constructor. unfold byTime, logTime.
    unfold gap in Hgap. rewrite diffDaysBetween_days in Hgap.
    pose proof (Date_parse_whole_days (date a)). pose proof (Date_parse_whole_days (date b)).
    unfold JS.msPerDay in *. lia. }
  assert (Hf : Forall isFlowLog ([] ++ [a; b])) by (repeat constructor; assumption).
  destruct (boundary_rule zone [] a b d Hf Hs) as [Hsame Hnew].
  cbn [app] in *. fold gap in Hsame, Hnew.
  rewrite (analyze_single zone a d Ha) in *.
  rewrite !formatDateISO_Date_parse_east in * by assumption.
  split; [exact Hsame |].
  intros H8. destruct (Hnew H8) as (prevStart & rest & [= <- <-] & ->). reflexivity.
Qed.

Lemma segmenter_two_logs_east_witness :
  analyzeCyclesFromLogs zoneUTC
    [mkLog (mkDate 2024 1 1) (Some Medium); mkLog (mkDate 2024 1 8) (Some Medium)] 28 =
  [mkCycle (mkDate 2024 1 1) None 28] /\
  analyzeCyclesFromLogs zoneUTC
    [mkLog (mkDate 2024 1 1) (Some Medium); mkLog (mkDate 2024 1 9) (Some Medium)] 28 =
  [mkCycle (mkDate 2024 1 9) None 28; mkCycle (mkDate 2024 1 1) None 8].
Proof.
  assert (Hz : zone_east_of_UTC zoneUTC) by (intros t; unfold zoneUTC, fixedZone; lia).
  split.
  - apply (proj1 (segmenter_two_logs_east_of_UTC zoneUTC
                    (mkLog (mkDate 2024 1 1) (Some Medium))
                    (mkLog (mkDate 2024 1 8) (Some Medium)) 28
                    Hz eq_refl eq_refl
                    ltac:(cbn; discriminate) ltac:(cbn; discriminate)
                    ltac:(vm_compute; discriminate))).
    vm_compute. discriminate.
  - apply (proj2 (segmenter_two_logs_east_of_UTC zoneUTC
                    (mkLog (mkDate 2024 1 1) (Some Medium))
                    (mkLog (mkDate 2024 1 9) (Some Medium)) 28
                    Hz eq_refl eq_refl
                    ltac:(cbn; discriminate) ltac:(cbn; discriminate)
                    ltac:(vm_compute; discriminate))).
    vm_compute. discriminate.
Defined.

(** *** Logs without flow, and spotting *)

Lemma spotting_is_not_flow dt : ~ isFlowLog (mkLog dt (Some Spotting)).
Proof. cbn. intros H. apply H. reflexivity. Qed.

Lemma non_flow_log_deleted
    (zone : Z -> bool -> Z) (l1 l2 : list DailyLog) (s : DailyLog) (d : Z) :
  ~ isFlowLog s ->
  analyzeCyclesFromLogs zone (l1 ++ s :: l2) d = analyzeCyclesFromLogs zone (l1 ++ l2) d.
Proof.
  intros Hs. rewrite !analyze_unfold, !filter_app, filter_cons_False by exact Hs. reflexivity.
Qed.

Lemma no_flow_log_no_cycle (zone : Z -> bool -> Z) (logs : list DailyLog) (d : Z) :
  Forall (fun l => ~ isFlowLog l) logs -> analyzeCyclesFromLogs zone logs d = [].
Proof.
  intros Hnone. rewrite analyze_unfold.
  replace (filter isFlowLog logs) with (@nil DailyLog); [reflexivity |].
  symmetry. induction Hnone as [| x l Hx Hl IH]; [reflexivity |].
  rewrite filter_cons_False by exact Hx. exact IH.
Qed.

(** Among logs with valid dates, a log that is not a flow log (no flow, or
    spotting) can be deleted anywhere without changing the cycles: it starts nothing, extends nothing
    and closes nothing.  Without any flow log there is no cycle. *)
Theorem segmenter_ignores_spotting
    (zone : Z -> bool -> Z) (l1 l2 : list DailyLog) (s : DailyLog) (d : Z) :
  validDates (l1 ++ l2) -> ~ isFlowLog s ->
  analyzeCyclesFromLogs zone (l1 ++ s :: l2) d = analyzeCyclesFromLogs zone (l1 ++ l2) d /\
  (Forall (fun l => ~ isFlowLog l) (l1 ++ l2) ->
   analyzeCyclesFromLogs zone (l1 ++ s :: l2) d = []).
Proof.
  intros _ Hs. split; [apply non_flow_log_deleted, Hs |].
  intros Hnone. rewrite non_flow_log_deleted by exact Hs. apply no_flow_log_no_cycle, Hnone.
Qed.

Lemma segmenter_ignores_spotting_witness :
  analyzeCyclesFromLogs zoneUTC
    [mkLog (mkDate 2024 1 1) (Some Medium); mkLog (mkDate 2024 1 20) (Some Spotting)] 28 =
  analyzeCyclesFromLogs zoneUTC [mkLog (mkDate 2024 1 1) (Some Medium)] 28.
Proof.
  exact (proj1 (segmenter_ignores_spotting zoneUTC
                  [mkLog (mkDate 2024 1 1) (Some Medium)] []
                  (mkLog (mkDate 2024 1 20) (Some Spotting)) 28
                  ltac:(repeat constructor)
                  (spotting_is_not_flow (mkDate 2024 1 20)))).
Defined.

(** The literal case in a zone at or east of UTC: Medium on 01-01 and
    spotting on 01-20 give the single open cycle starting 01-01. *)
Theorem segmenter_spotting_example_east_of_UTC (zone : Z -> bool -> Z) (d : Z) :
  zone_east_of_UTC zone ->
  analyzeCyclesFromLogs zone
    [mkLog (mkDate 2024 1 1) (Some Medium); mkLog (mkDate 2024 1 20) (Some Spotting)] d =
  [mkCycle (mkDate 2024 1 1) None d].
Proof.
  intros Hz.
  pose proof (non_flow_log_deleted zone
                [mkLog (mkDate 2024 1 1) (Some Medium)] []
                (mkLog (mkDate 2024 1 20) (Some Spotting)) d
                (spotting_is_not_flow (mkDate 2024 1 20))) as H.
  cbn [app] in H. rewrite H. rewrite analyze_single by (cbn; discriminate).
  cbn [date]. rewrite formatDateISO_Date_parse_east by (exact Hz || reflexivity).
  reflexivity.
Qed.

Lemma segmenter_spotting_example_witness :
  analyzeCyclesFromLogs zoneUTC
    [mkLog (mkDate 2024 1 1) (Some Medium); mkLog (mkDate 2024 1 20) (Some Spotting)] 28 =
  [mkCycle (mkDate 2024 1 1) None 28].
Proof.
  apply (segmenter_spotting_example_east_of_UTC zoneUTC 28).
  intros t. unfold zoneUTC, fixedZone. lia.
Defined.

(** ** Calendar projector *)

Section FoldLeft.

Context {S X : Type} (f : S -> X -> S).

Lemma fold_left_preserves (I : S -> Prop) l s :
  (forall s x, I s -> I (f s x)) -> I s -> I (fold_left f l s).
Proof.
  intros Hf. revert s. induction l as [| x l IH]; intros s Hs; [exact Hs |].
  cbn [fold_left]. apply IH, Hf, Hs.
Qed.

(** What one step establishes and every step keeps holds at the end. *)
Lemma fold_left_establishes (Q : S -> Prop) l x s :
  x ∈ l -> (forall s, Q (f s x)) -> (forall s y, Q s -> Q (f s y)) ->
  Q (fold_left f l s).
Proof.
  intros Hx Hset Hkeep. revert s. induction l as [| y l IH]; intros s; [inversion Hx |].
  cbn [fold_left]. apply elem_of_cons in Hx as [-> | Hx].
  - apply fold_left_preserves; [exact Hkeep | apply Hset].
  - apply IH, Hx.
Qed.

End FoldLeft.

Section ProjectorFacts.

Variable zone : Z -> bool -> Z.

Lemma markPeriod_shapes nextStart m i :
  map_Forall (fun _ e => periodOrFertile e) m ->
  map_Forall (fun _ e => periodOrFertile e) (markPeriod zone nextStart m i).
Proof.
  intros H. unfold markPeriod. apply map_Forall_insert_2; [left; reflexivity | exact H].
Qed.

Lemma markFertile_shapes ovulationDate m o :
  map_Forall (fun _ e => periodOrFertile e) m ->
  map_Forall (fun _ e => periodOrFertile e) (markFertile zone ovulationDate m o).
Proof.
  intros H. unfold markFertile. destruct (negb _); [| exact H].
  apply map_Forall_insert_2; [right; split; reflexivity | exact H].
Qed.

Lemma markPeriod_keeps nextStart m i k :
  m !! k = Some periodMarker -> markPeriod zone nextStart m i !! k = Some periodMarker.
Proof.
  intros H. unfold markPeriod. rewrite lookup_insert. case_decide; [reflexivity | exact H].
Qed.

(** The guard of the fertile loop: an entry marked as projected period is
    left as it is. *)
Lemma markFertile_skips_period ovulationDate m o e :
  m !! formatDateISO zone (setDate zone ovulationDate (getDate zone ovulationDate + o)) = Some e ->
  isProjectedPeriod e = true ->
  markFertile zone ovulationDate m o = m.
Proof.
  intros He Hp. unfold markFertile. rewrite He. cbn [from_option]. rewrite Hp. reflexivity.
Qed.

Lemma markFertile_keeps ovulationDate m o k :
  m !! k = Some periodMarker -> markFertile zone ovulationDate m o !! k = Some periodMarker.
Proof.
  intros H. unfold markFertile.
  destruct (negb _) eqn:E; [| exact H].
  rewrite lookup_insert. case_decide as Hk; [| exact H].
  subst k. rewrite H in E. discriminate.
Qed.

Lemma projectCycle_shapes latestStart smartLength periodLen m c :
  map_Forall (fun _ e => periodOrFertile e) m ->
  map_Forall (fun _ e => periodOrFertile e) (projectCycle zone latestStart smartLength periodLen m c).
Proof.
  intros H. unfold projectCycle.
  apply fold_left_preserves; [intros; apply markFertile_shapes; assumption |].
  apply fold_left_preserves; [intros; apply markPeriod_shapes; assumption | exact H].
Qed.

Lemma projectCycle_keeps latestStart smartLength periodLen m c k :
  m !! k = Some periodMarker ->
  projectCycle zone latestStart smartLength periodLen m c !! k = Some periodMarker.
Proof.
  intros H. unfold projectCycle.
  apply (fold_left_preserves _ (fun m => m !! k = Some periodMarker));
    [intros; apply markFertile_keeps; assumption |].
  apply (fold_left_preserves _ (fun m => m !! k = Some periodMarker));
    [intros; apply markPeriod_keeps; assumption | exact H].
Qed.

Lemma projectCycle_marks_period latestStart smartLength periodLen m c i :
  0 <= i < periodLen ->
  projectCycle zone latestStart smartLength periodLen m c
    !! periodDay zone latestStart smartLength c i = Some periodMarker.
Proof.
  intros Hi. unfold projectCycle.
  apply (fold_left_preserves _ (fun m => m !! _ = Some periodMarker));
    [intros; apply markFertile_keeps; assumption |].
  apply (fold_left_establishes _ (fun m => m !! _ = Some periodMarker) _ i).
  - apply elem_of_seqZ. lia.
  - intros m'. unfold markPeriod, periodDay, nextStartOf. apply lookup_insert_eq.
  - intros; apply markPeriod_keeps; assumption.
Qed.

(** Period markers win: every entry of the projected map is a period marker
    or a fertile marker, never both; every projected period day of every
    one of the twelve cycles ends as a period marker, not fertile, whatever
    fertile window falls on it. *)
Theorem projector_period_days_never_fertile (latestStart smartLength periodLen : Z) :
  let m := projectFuture zone latestStart smartLength periodLen in
  (forall k e, m !! k = Some e -> isProjectedPeriod e = true -> isFertile e = false) /\
  (forall k e, m !! k = Some e -> periodOrFertile e) /\
  (forall c i, 1 <= c <= 12 -> 0 <= i < periodLen ->
     m !! periodDay zone latestStart smartLength c i = Some periodMarker).
Proof.
  intros m.
  assert (Hshape : map_Forall (fun _ e => periodOrFertile e) m).
  { unfold m, projectFuture.
    apply fold_left_preserves; [intros; apply projectCycle_shapes; assumption |].
    apply map_Forall_empty. }
  split; [| split].
  - intros k e He Hp. destruct (Hshape k e He) as [-> | [Hq _]]; [reflexivity | congruence].
  - exact Hshape.
  - intros c i Hc Hi. unfold m, projectFuture.
    apply (fold_left_establishes _ (fun m => m !! _ = Some periodMarker) _ c).
    + apply elem_of_seqZ. lia.
    + intros m'. apply projectCycle_marks_period, Hi.
    + intros; apply projectCycle_keeps; assumption.
Qed.

End ProjectorFacts.

(** ** The dates west of Greenwich *)

Lemma getTimezoneOffset_west t : getTimezoneOffset zoneWest5 t = 300.
Proof. rewrite getTimezoneOffset_zone. reflexivity. Qed.

(** The date-only string is read as UTC midnight and written back as a
    local date: five hours west of UTC that is the evening before. *)
Lemma formatDateISO_Date_parse_west :
  formatDateISO zoneWest5 (Date_parse (mkDate 2024 1 1)) = mkDate 2023 12 31.
Proof. vm_compute. reflexivity. Qed.

(** West of UTC a single qualifying log opens a cycle whose start date is
    the day before the log's date. *)
Theorem segmenter_start_is_a_day_early_west_of_UTC
    (zone : Z -> bool -> Z) (d : ISODate) (f : FlowIntensity) (defaultCycleLen : Z) :
  zone_west_of_UTC zone -> valid_date d = true -> f <> Spotting ->
  analyzeCyclesFromLogs zone [mkLog (tomorrow d) (Some f)] defaultCycleLen =
  [mkCycle d None defaultCycleLen].
Proof.
  intros Hz Hd Hf. rewrite analyze_single by exact Hf. cbn [date]. f_equal. f_equal.
  pose proof (valid_calendar_date _ Hd) as Hc.
  transitivity (toISODate (Date_parse d)); [| apply toISODate_Date_parse_calendar, Hc].
  rewrite formatDateISO_local. apply toISODate_same_day.
  pose proof (Day_tomorrow d Hc) as Ht.
  pose proof (Date_parse_whole_days (tomorrow d)) as Hw.
  specialize (Hz (Date_parse (tomorrow d))).
  unfold LocalTime, LocalTZA.
  set (z := zone (Date_parse (tomorrow d)) true) in *. clearbody z.
  set (t := Date_parse (tomorrow d)) in *. clearbody t.
  set (n := JS.Day (Date_parse d)) in *. clearbody n.
  unfold JS.Day, JS.msPerDay, JS.msPerMinute in *.
  Z.div_mod_to_equations. lia.
Qed.

Lemma segmenter_start_west_witness :
  analyzeCyclesFromLogs zoneWest5 [mkLog (mkDate 2024 3 1) (Some Light)] 30 =
  [mkCycle (mkDate 2024 2 29) None 30].
Proof.
  apply (segmenter_start_is_a_day_early_west_of_UTC zoneWest5 (mkDate 2024 2 29) Light 30).
  - intros t. unfold zoneWest5, fixedZone. lia.
  - reflexivity.
  - discriminate.
Defined.

(** C1, on a host five hours west of UTC: the logs of 2024-01-01 and
    2024-01-08 give one cycle, and its start date is 2023-12-31. *)
Theorem C1_start_date_west_of_UTC :
  analyzeCyclesFromLogs zoneWest5
    [mkLog (mkDate 2024 1 1) (Some Medium); mkLog (mkDate 2024 1 8) (Some Medium)] 28 =
  [mkCycle (mkDate 2023 12 31) None 28].
Proof. vm_compute. reflexivity. Qed.

(** C8, on a host five hours west of UTC: Medium on 2024-01-01 and spotting
    on 2024-01-20 give a single open cycle, and its start date is
    2023-12-31. *)
Theorem C8_spotting_example_west_of_UTC :
  analyzeCyclesFromLogs zoneWest5
    [mkLog (mkDate 2024 1 1) (Some Medium); mkLog (mkDate 2024 1 20) (Some Spotting)] 28 =
  [mkCycle (mkDate 2023 12 31) None 28].
Proof. vm_compute. reflexivity. Qed.

(** C2, on a host five hours west of UTC, for the cycle start 2024-01-01
    with the lengths 28 and 5: the first projected period is
    2024-01-28..2024-02-01, the ovulation day 2024-01-14 and the fertile
    window 2024-01-09..2024-01-15. *)
Theorem C2_projection_west_of_UTC :
  let m := (predictionData zoneWest5 [mkCycle (mkDate 2024 1 1) None 28] (mkSettings 28 5)).1 in
  m !! mkDate 2024 1 28 = Some periodMarker /\
  m !! mkDate 2024 2 1 = Some periodMarker /\
  m !! mkDate 2024 2 2 = None /\
  m !! mkDate 2024 1 14 = Some (mkMarker false true true) /\
  m !! mkDate 2024 1 15 = Some (mkMarker false true false) /\
  m !! mkDate 2024 1 9 = Some (mkMarker false true false) /\
  m !! mkDate 2024 1 16 = None.
Proof.
  cbv zeta. repeat match goal with |- _ /\ _ => split end; vm_compute; reflexivity.
Qed.

(** The same projection on a host at UTC: the first projected period is
    2024-01-29..2024-02-02, the ovulation day 2024-01-15, the fertile
    window 2024-01-10..2024-01-16, and no period day is fertile. *)
Lemma projection_example_at_UTC :
  let m := (predictionData zoneUTC [mkCycle (mkDate 2024 1 1) None 28] (mkSettings 28 5)).1 in
  (forall dd, 29 <= dd <= 31 -> m !! mkDate 2024 1 dd = Some periodMarker) /\
  (forall dd, 1 <= dd <= 2 -> m !! mkDate 2024 2 dd = Some periodMarker) /\
  m !! mkDate 2024 1 28 = None /\ m !! mkDate 2024 2 3 = None /\
  (forall dd, 10 <= dd <= 16 -> m !! mkDate 2024 1 dd = Some (mkMarker false true (dd =? 15))) /\
  m !! mkDate 2024 1 9 = None /\ m !! mkDate 2024 1 17 = None.
Proof.
  cbv zeta. repeat match goal with |- _ /\ _ => split end.
  - intros dd H. assert (C : dd = 29 \/ dd = 30 \/ dd = 31) by lia.
    destruct C as [-> | [-> | ->]]; vm_compute; reflexivity.
  - intros dd H. assert (C : dd = 1 \/ dd = 2) by lia.
    destruct C as [-> | ->]; vm_compute; reflexivity.
  - vm_compute; reflexivity.
  - vm_compute; reflexivity.
  - intros dd H.
    assert (C : dd = 10 \/ dd = 11 \/ dd = 12 \/ dd = 13 \/ dd = 14 \/ dd = 15 \/ dd = 16) by lia.
    destruct C as [-> | [-> | [-> | [-> | [-> | [-> | ->]]]]]]; vm_compute; reflexivity.
  - vm_compute; reflexivity.
  - vm_compute; reflexivity.
Qed.

(** The near-duplicate segmenter keeps logs eight days apart in one cycle. *)
Lemma duplicate_segmenter_threshold_is_ten :
  Duplicate.analyzeCyclesFromLogs zoneUTC
    [mkLog (mkDate 2024 1 1) (Some Medium); mkLog (mkDate 2024 1 9) (Some Medium)] 28 =
  [mkCycle (mkDate 2024 1 1) None 28] /\
  Duplicate.analyzeCyclesFromLogs zoneUTC
    [mkLog (mkDate 2024 1 1) (Some Medium); mkLog (mkDate 2024 1 12) (Some Medium)] 28 =
  [mkCycle (mkDate 2024 1 12) None 28; mkCycle (mkDate 2024 1 1) None 11].
Proof. vm_compute. split; reflexivity. Qed.

(** ** The projected dates in a zone at or east of UTC *)

Lemma MakeDay_date_shift y m d n : JS.MakeDay y m (d + n) = JS.MakeDay y m d + n.
Proof. unfold JS.MakeDay. lia. Qed.

(** [d.setDate(d.getDate() + n)] moves the local time by [n] days. *)
Lemma setDate_getDate zone t n :
  setDate zone t (getDate zone t + n) = UTC zone (LocalTime zone t + n * JS.msPerDay).
Proof.
  unfold setDate, getDate. cbv zeta. f_equal.
  rewrite MakeDay_date_shift, MakeDay_of_Day.
  unfold JS.MakeDate, JS.Day, JS.TimeWithinDay.
  pose proof (Z.div_mod (LocalTime zone t) JS.msPerDay ltac:(discriminate)) as H.
  set (q := LocalTime zone t / JS.msPerDay) in *.
  set (r := LocalTime zone t mod JS.msPerDay) in *.
  unfold JS.msPerDay in *. lia.
Qed.

Lemma setDate_getDate_fixed k t n :
  setDate (fixedZone k) t (getDate (fixedZone k) t + n) = t + n * JS.msPerDay.
Proof.
  rewrite setDate_getDate. unfold UTC, LocalTime, LocalTZA, fixedZone. lia.
Qed.

Lemma toISODate_daysAfter d n :
  calendar_date d -> 0 <= n ->
  toISODate (Date_parse d + n * JS.msPerDay) = daysAfter d n.
Proof.
  intros Hd Hn. unfold daysAfter.
  destruct (Day_iter_tomorrow (Z.to_nat n) d Hd) as [Hc HD].
  rewrite <- (toISODate_Date_parse_calendar _ Hc). apply toISODate_same_day.
  rewrite HD, Z2Nat.id by exact Hn.
  rewrite (Date_parse_whole_days d) at 1.
  unfold JS.Day at 1. rewrite <- Z.mul_add_distr_r. apply Z.div_mul. discriminate.
Qed.

(** At or east of UTC, with a fixed offset, the local date of UTC midnight
    plus [n] days is the date [n] days after. *)
Lemma formatDateISO_daysAfter k d n :
  0 <= k < 1440 -> calendar_date d -> 0 <= n ->
  formatDateISO (fixedZone k) (Date_parse d + n * JS.msPerDay) = daysAfter d n.
Proof.
  intros Hk Hd Hn. rewrite formatDateISO_local, <- (toISODate_daysAfter d n Hd Hn).
  apply toISODate_same_day. unfold LocalTime, LocalTZA, fixedZone.
  pose proof (Date_parse_whole_days d) as Hw.
  set (t := Date_parse d) in *. clearbody t.
  unfold JS.Day, JS.msPerDay, JS.msPerMinute in *.
  Z.div_mod_to_equations. lia.
Qed.

(** On a host with a fixed offset at or east of UTC the projector marks the
    dates the specification names: period day [i] of projected cycle [c] is
    [smartLength * c + i] days after the anchor date, and the day at offset
    [o] from the ovulation date is [smartLength * c - 14 + o] days after
    it. *)
Theorem projector_dates_east_of_UTC (k : Z) (anchor : ISODate) (smartLength c : Z) :
  0 <= k < 1440 -> valid_date anchor = true ->
  (forall i, 0 <= smartLength * c + i ->
     periodDay (fixedZone k) (Date_parse anchor) smartLength c i =
     daysAfter anchor (smartLength * c + i)) /\
  (forall o, 0 <= smartLength * c - 14 + o ->
     fertileDay (fixedZone k) (Date_parse anchor) smartLength c o =
     daysAfter anchor (smartLength * c - 14 + o)).
Proof.
  intros Hk Hv. pose proof (valid_calendar_date _ Hv) as Hc.
  unfold periodDay, fertileDay, nextStartOf. cbv zeta.
  rewrite <- !Z.add_opp_r. rewrite !setDate_getDate_fixed. split.
  - intros i Hi. rewrite !setDate_getDate_fixed.
    rewrite <- (formatDateISO_daysAfter k anchor _ Hk Hc Hi). f_equal.
    generalize (Date_parse anchor). intros t. unfold JS.msPerDay. lia.
  - intros o Ho. rewrite !setDate_getDate_fixed.
    rewrite <- (formatDateISO_daysAfter k anchor _ Hk Hc Ho). f_equal.
    generalize (Date_parse anchor). intros t. unfold JS.msPerDay. lia.
Qed.

Lemma projector_dates_east_witness :
  periodDay (fixedZone 330) (Date_parse (mkDate 2024 1 1)) 28 1 4 = mkDate 2024 2 2 /\
  fertileDay (fixedZone 330) (Date_parse (mkDate 2024 1 1)) 28 1 0 = mkDate 2024 1 15.
Proof.
  destruct (projector_dates_east_of_UTC 330 (mkDate 2024 1 1) 28 1 ltac:(lia) eq_refl)
    as [Hp Hf].
  split.
  - rewrite (Hp 4 ltac:(lia)). vm_compute. reflexivity.
  - rewrite (Hf 0 ltac:(lia)). vm_compute. reflexivity.
Defined.

(** * Further properties of the date helpers *)

(** ** Local midnights in a zone with a fixed offset *)

Lemma LocalTime_UTC_fixed k x : LocalTime (fixedZone k) (UTC (fixedZone k) x) = x.
Proof. unfold LocalTime, UTC, LocalTZA, fixedZone. lia. Qed.

Lemma Day_Date_local_fixed k y m d :
  JS.Day (LocalTime (fixedZone k) (Date_local (fixedZone k) y m d)) =
  JS.MakeDay (centuryYear y) m d.
Proof.
  unfold Date_local. cbv zeta. rewrite LocalTime_UTC_fixed.
  unfold JS.MakeDate, JS.Day. rewrite Z.add_0_r. apply Z.div_mul. discriminate.
Qed.

(** The fields of the day of a calendar date are its own. *)
Lemma calendar_fields y m d :
  calendar_date (mkDate y (m + 1) d) ->
  JS.YearFromDay (JS.MakeDay y m d) = y /\
  JS.MonthFromDay (JS.MakeDay y m d) = m /\
  JS.DateFromDay (JS.MakeDay y m d) = d.
Proof.
  intros Hc. pose proof (toISODate_Date_parse_calendar _ Hc) as H.
  unfold toISODate in H. rewrite Day_Date_parse in H. cbn [year month day] in H.
  replace (m + 1 - 1) with m in H by lia.
  injection H as H1 H2 H3. repeat split; [exact H1 | lia | exact H3].
Qed.

Lemma MakeDay_next_month yr m :
  0 <= m <= 11 ->
  JS.MakeDay yr (m + 1) 1 = JS.MakeDay yr m 1 + daysInMonth yr (m + 1).
Proof.
  intros Hm. destruct (Z.eq_dec m 11) as [-> | Hne].
  - rewrite (MakeDay_in_year yr 11) by lia.
    unfold JS.MakeDay. change ((11 + 1) / 12) with 1. change ((11 + 1) mod 12) with 0.
    rewrite DayFromYear_succ. unfold JS.DaysInYear. cbn [JS.monthStart].
    change (daysInMonth yr (11 + 1)) with 31.
    destruct (JS.isLeap yr); destruct (JS.isLeap (yr + 1)); lia.
  - rewrite !MakeDay_in_year by lia.
    pose proof (monthStart_step yr (m + 1) ltac:(lia)) as St.
    replace (m + 1 - 1) with m in St by lia. lia.
Qed.

Lemma daysInMonth_range y m : 28 <= daysInMonth y m <= 31.
Proof.
  unfold daysInMonth.
  destruct m as [| [[[[| |] | [| |] | ] | [[| |] | [| |] | ] | ] | [[| |] | [| |] | ] | ] |];
    try destruct (JS.isLeap y); lia.
Qed.

Lemma formatDateISO_Date_local k y m d :
  calendar_date (mkDate (centuryYear y) (m + 1) d) ->
  formatDateISO (fixedZone k) (Date_local (fixedZone k) y m d) =
  mkDate (centuryYear y) (m + 1) d.
Proof.
  intros Hc. rewrite formatDateISO_local.
  rewrite <- (toISODate_Date_parse_calendar _ Hc). apply toISODate_same_day.
  rewrite Day_Date_local_fixed, Day_Date_parse. cbn [year month day].
  f_equal. lia.
Qed.

(** [formatDateISO] of a local midnight is the local date it was built
    from, in any zone with a fixed offset: the calendar grid's cells carry
    their own dates. *)
Theorem formatDateISO_of_local_midnight (k y m d : Z) :
  calendar_date (mkDate (centuryYear y) (m + 1) d) ->
  formatDateISO (fixedZone k) (Date_local (fixedZone k) y m d) =
  mkDate (centuryYear y) (m + 1) d.
Proof.
  intros Hc. rewrite formatDateISO_local.
  transitivity (toISODate (Date_parse (mkDate (centuryYear y) (m + 1) d)));
    [| apply toISODate_Date_parse_calendar, Hc].
  apply toISODate_same_day.
  rewrite Day_Date_local_fixed, Day_Date_parse. cbn [year month day].
  f_equal. lia.
Qed.

Lemma formatDateISO_of_local_midnight_witness :
  formatDateISO zoneWest5 (Date_local zoneWest5 2024 1 29) = mkDate 2024 2 29 /\
  formatDateISO (fixedZone 330) (Date_local (fixedZone 330) 24 0 1) = mkDate 1924 1 1.
Proof.
  split.
  - apply (formatDateISO_of_local_midnight (-300) 2024 1 29). vm_compute. intuition discriminate.
  - apply (formatDateISO_of_local_midnight 330 24 0 1). vm_compute. intuition discriminate.
Defined.

Lemma getDaysInMonth_fixed k y m :
  0 <= m <= 11 ->
  getDaysInMonth (fixedZone k) y m = daysInMonth (centuryYear y) (m + 1).
Proof.
  intros Hm. unfold getDaysInMonth, getDate. rewrite Day_Date_local_fixed.
  set (yr := centuryYear y).
  replace (JS.MakeDay yr (m + 1) 0)
    with (JS.MakeDay yr m (daysInMonth yr (m + 1))).
  - apply calendar_fields. unfold calendar_date. cbn [year month day].
    pose proof (daysInMonth_range yr (m + 1)). lia.
  - pose proof (MakeDay_next_month yr m Hm) as H.
    pose proof (MakeDay_date_shift yr (m + 1) 0 1) as S1.
    pose proof (MakeDay_date_shift yr m 0 1) as S2.
    pose proof (MakeDay_date_shift yr m 0 (daysInMonth yr (m + 1))) as S3.
    rewrite Z.add_0_l in S1, S2, S3. lia.
Qed.

Lemma getFirstDayOfMonth_fixed k y m :
  getFirstDayOfMonth (fixedZone k) y m = JS.WeekDay (JS.MakeDay (centuryYear y) m 1).
Proof. unfold getFirstDayOfMonth, getDay. rewrite Day_Date_local_fixed. reflexivity. Qed.

Lemma WeekDay_range d : 0 <= JS.WeekDay d <= 6.
Proof. unfold JS.WeekDay. pose proof (Z.mod_pos_bound (d + 4) 7 ltac:(lia)). lia. Qed.

(** [getDaysInMonth] is the length of the month in the Gregorian calendar
    (February of a leap year has 29 days), in any zone with a fixed
    offset. *)
Theorem getDaysInMonth_is_month_length (k y m : Z) :
  0 <= m <= 11 ->
  getDaysInMonth (fixedZone k) y m = daysInMonth (centuryYear y) (m + 1) /\
  28 <= getDaysInMonth (fixedZone k) y m <= 31.
Proof.
  intros Hm. rewrite getDaysInMonth_fixed by exact Hm.
  split; [reflexivity | apply daysInMonth_range].
Qed.

Lemma getDaysInMonth_witness :
  getDaysInMonth zoneWest5 2024 1 = 29 /\ getDaysInMonth zoneUTC 2023 1 = 28.
Proof.
  split.
  - exact (proj1 (getDaysInMonth_is_month_length (-300) 2024 1 ltac:(lia))).
  - exact (proj1 (getDaysInMonth_is_month_length 0 2023 1 ltac:(lia))).
Defined.

(** [getFirstDayOfMonth] is a weekday 0..6, and the first weekday of the
    next month (December carrying into the next year) is this month's first
    weekday moved on by the length of the month; the month fits the grid of
    six weeks. *)
Theorem getFirstDayOfMonth_next_month (k year month : Z) :
  0 <= month <= 11 ->
  0 <= getFirstDayOfMonth (fixedZone k) year month <= 6 /\
  getFirstDayOfMonth (fixedZone k) year (month + 1) =
    (getFirstDayOfMonth (fixedZone k) year month +
     getDaysInMonth (fixedZone k) year month) mod 7 /\
  getFirstDayOfMonth (fixedZone k) year month +
    getDaysInMonth (fixedZone k) year month <= 37.
Proof.
  intros Hm. rewrite !getFirstDayOfMonth_fixed, getDaysInMonth_fixed by exact Hm.
  pose proof (WeekDay_range (JS.MakeDay (centuryYear year) month 1)) as B.
  pose proof (daysInMonth_range (centuryYear year) (month + 1)) as R.
  split; [exact B |]. split; [| lia].
  rewrite (MakeDay_next_month _ _ Hm). unfold JS.WeekDay.
  rewrite Z.add_mod_idemp_l by lia. f_equal. lia.
Qed.

Lemma getFirstDayOfMonth_witness :
  getFirstDayOfMonth zoneWest5 2024 0 = 1 /\
  getFirstDayOfMonth zoneWest5 2024 (11 + 1) = 3.
Proof.
  split; [vm_compute; reflexivity |]. unfold zoneWest5.
  rewrite (proj1 (proj2 (getFirstDayOfMonth_next_month (-300) 2024 11 ltac:(lia)))).
  vm_compute. reflexivity.
Defined.

(** [isSameDay] holds exactly when the two instants fall on the same local
    day, that is when [formatDateISO] gives them the same date. *)
Theorem isSameDay_iff_same_local_date (zone : Z -> bool -> Z) (d1 d2 : Z) :
  (isSameDay zone d1 d2 = true <-> JS.Day (LocalTime zone d1) = JS.Day (LocalTime zone d2)) /\
  (isSameDay zone d1 d2 = true <-> formatDateISO zone d1 = formatDateISO zone d2).
Proof.
  assert (F : isSameDay zone d1 d2 = true <-> formatDateISO zone d1 = formatDateISO zone d2).
  { unfold isSameDay, getFullYear, getMonth, getDate. rewrite !formatDateISO_local.
    unfold toISODate. rewrite !andb_true_iff, !Z.eqb_eq. split.
    - intros [[-> ->] ->]. reflexivity.
    - intros [= H1 H2 H3]. repeat split; [exact H1 | lia | exact H3]. }
  split; [| exact F]. rewrite F, !formatDateISO_local. split.
  - intros H. apply (f_equal Date_parse) in H. rewrite !Date_parse_toISODate in H.
    unfold JS.msPerDay in H. lia.
  - apply toISODate_same_day.
Qed.

(** ** [addDays] *)

(** Two calendar dates on the same day are the same date. *)
Lemma calendar_date_by_day a b :
  calendar_date a -> calendar_date b ->
  JS.Day (Date_parse a) = JS.Day (Date_parse b) -> a = b.
Proof.
  intros Ha Hb H.
  rewrite <- (toISODate_Date_parse_calendar _ Ha), <- (toISODate_Date_parse_calendar _ Hb).
  apply toISODate_same_day, H.
Qed.

Lemma Day_toISODate t : JS.Day (Date_parse (toISODate t)) = JS.Day t.
Proof.
  rewrite Date_parse_toISODate. unfold JS.Day at 1. apply Z.div_mul. discriminate.
Qed.

Lemma Day_LocalTime_fixed k t n :
  -1440 <= k < 1440 ->
  JS.Day (LocalTime (fixedZone k) (JS.Day t * JS.msPerDay + n * JS.msPerDay)) =
  JS.Day t + n - (if k <? 0 then 1 else 0).
Proof.
  intros Hk. unfold LocalTime, LocalTZA, fixedZone.
  generalize (JS.Day t). intros q. unfold JS.Day, JS.msPerDay, JS.msPerMinute.
  destruct (k <? 0) eqn:E; [apply Z.ltb_lt in E | apply Z.ltb_ge in E];
    Z.div_mod_to_equations; lia.
Qed.

Lemma Day_addDays k d n :
  -1440 <= k < 1440 ->
  JS.Day (Date_parse (addDays (fixedZone k) d n)) =
  JS.Day (Date_parse d) + n - (if k <? 0 then 1 else 0).
Proof.
  intros Hk. unfold addDays. cbv zeta.
  rewrite setDate_getDate_fixed, formatDateISO_local, Day_toISODate.
  rewrite (Date_parse_whole_days d) at 1. apply Day_LocalTime_fixed, Hk.
Qed.

Lemma addDays_calendar zone d n : calendar_date (addDays zone d n).
Proof. unfold addDays. cbv zeta. apply formatDateISO_calendar. Qed.

(** [addDays] of a valid date in a zone with a fixed offset: at UTC and east
    of it the result is the date [n] days later; west of UTC it is one day short, so
    that [n + 1] days have to be added to reach the date [n] days later. *)
Theorem addDays_counts_days (k : Z) (d : ISODate) (n : Z) :
  -1440 <= k < 1440 -> valid_date d = true -> 0 <= n ->
  addDays (fixedZone k) d (n + (if k <? 0 then 1 else 0)) = daysAfter d n.
Proof.
  intros Hk Hv Hn. pose proof (valid_calendar_date _ Hv) as Hd.
  destruct (Day_iter_tomorrow (Z.to_nat n) d Hd) as [Hc HD].
  apply calendar_date_by_day; [apply addDays_calendar | exact Hc |].
  unfold daysAfter. rewrite HD, Z2Nat.id, Day_addDays by assumption. lia.
Qed.

Lemma addDays_counts_days_witness :
  addDays (fixedZone 330) (mkDate 2024 2 28) 2 = mkDate 2024 3 1 /\
  addDays zoneWest5 (mkDate 2024 2 28) 2 = mkDate 2024 2 29.
Proof.
  split.
  - etransitivity;
      [exact (addDays_counts_days 330 (mkDate 2024 2 28) 2 ltac:(lia) eq_refl ltac:(lia)) |].
    vm_compute. reflexivity.
  - etransitivity;
      [exact (addDays_counts_days (-300) (mkDate 2024 2 28) 1 ltac:(lia) eq_refl ltac:(lia)) |].
    vm_compute. reflexivity.
Defined.

(** Chaining two calls of [addDays] on valid dates: at UTC and east of it
    the days add up;
    west of UTC each call loses a day, so two calls are one day short of the
    single call with the sum. *)
Theorem addDays_twice (k : Z) (d : ISODate) (a b : Z) :
  -1440 <= k < 1440 ->
  valid_date d = true -> valid_date (addDays (fixedZone k) d a) = true ->
  addDays (fixedZone k) (addDays (fixedZone k) d a) b =
  addDays (fixedZone k) d (a + b - (if k <? 0 then 1 else 0)).
Proof.
  intros Hk _ _. apply calendar_date_by_day; try apply addDays_calendar.
  rewrite !Day_addDays by exact Hk. lia.
Qed.

Lemma addDays_twice_witness :
  addDays zoneUTC (addDays zoneUTC (mkDate 2024 2 28) 1) 1 = mkDate 2024 3 1 /\
  addDays zoneWest5 (addDays zoneWest5 (mkDate 2024 2 28) 1) 1 = mkDate 2024 2 28.
Proof.
  split.
  - etransitivity;
      [exact (addDays_twice 0 (mkDate 2024 2 28) 1 1 ltac:(lia) eq_refl
                ltac:(vm_compute; reflexivity)) |].
    vm_compute. reflexivity.
  - etransitivity;
      [exact (addDays_twice (-300) (mkDate 2024 2 28) 1 1 ltac:(lia) eq_refl
                ltac:(vm_compute; reflexivity)) |].
    vm_compute. reflexivity.
Defined.

(** * The stored logs and cycles *)

(** ** [saveLog] and [find] *)

Lemma saveLog_cons x logs log :
  saveLog (x :: logs) log =
  if decide (date x = date log) then log :: logs else x :: saveLog logs log.
Proof.
  unfold saveLog. cbn [list_find]. destruct (decide (date x = date log)); [reflexivity |].
  destruct (list_find _ logs) as [[i y] |]; reflexivity.
Qed.

Lemma saveLog_nil log : saveLog [] log = [log].
Proof. reflexivity. Qed.

Lemma findLog_nil d : findLog [] d = None.
Proof. reflexivity. Qed.

Lemma findLog_cons x logs d :
  findLog (x :: logs) d = if decide (date x = d) then Some x else findLog logs d.
Proof.
  unfold findLog. cbn [list_find]. destruct (decide (date x = d)); [reflexivity |].
  destruct (list_find _ logs) as [[i y] |]; reflexivity.
Qed.

Lemma findLog_date logs d l : findLog logs d = Some l -> date l = d /\ l ∈ logs.
Proof.
  induction logs as [| x logs IH]; [discriminate |]. rewrite findLog_cons.
  destruct (decide (date x = d)) as [E | E].
  - intros [= <-]. split; [exact E | apply list_elem_of_here].
  - intros H. destruct (IH H) as [H1 H2]. split; [exact H1 | apply list_elem_of_further, H2].
Qed.

Lemma findLog_None logs d : findLog logs d = None <-> d ∉ date <$> logs.
Proof.
  induction logs as [| x logs IH]; [split; [intros _; apply not_elem_of_nil | reflexivity] |].
  rewrite findLog_cons, fmap_cons, not_elem_of_cons.
  destruct (decide (date x = d)) as [E | E].
  - split; [discriminate | intros [H _]; congruence].
  - rewrite IH. split; [intros H; split; [congruence | exact H] | intros [_ H]; exact H].
Qed.

Lemma findLog_saved logs log : findLog (saveLog logs log) (date log) = Some log.
Proof.
  induction logs as [| x logs IH].
  - rewrite saveLog_nil, findLog_cons, decide_True by reflexivity. reflexivity.
  - rewrite saveLog_cons. destruct (decide (date x = date log)) as [E | E];
      rewrite findLog_cons; [rewrite decide_True by reflexivity; reflexivity |].
    rewrite decide_False by exact E. exact IH.
Qed.

(** After [saveLog] the log found at the saved date is the saved log, and
    the log found at any other date is the one found before. *)
Theorem saveLog_then_find (logs : list DailyLog) (log : DailyLog) :
  findLog (saveLog logs log) (date log) = Some log /\
  (forall d, d <> date log -> findLog (saveLog logs log) d = findLog logs d).
Proof.
  split; [apply findLog_saved |].
  - intros d Hd. induction logs as [| x logs IH].
    + rewrite saveLog_nil, findLog_cons, decide_False by congruence. reflexivity.
    + rewrite saveLog_cons. destruct (decide (date x = date log)) as [E | E];
        rewrite !findLog_cons.
      * rewrite !decide_False by congruence. reflexivity.
      * rewrite IH. reflexivity.
Qed.

(** [saveLog] keeps the dates of the stored list and their order, and puts
    a new date at the end; so a list with one log for each date stays
    one. *)
Theorem saveLog_keeps_one_log_per_date (logs : list DailyLog) (log : DailyLog) :
  (date <$> saveLog logs log =
     if decide (date log ∈ date <$> logs) then date <$> logs
     else (date <$> logs) ++ [date log]) /\
  (NoDup (date <$> logs) -> NoDup (date <$> saveLog logs log)).
Proof.
  assert (E : date <$> saveLog logs log =
     if decide (date log ∈ date <$> logs) then date <$> logs
     else (date <$> logs) ++ [date log]).
  { induction logs as [| x logs IH].
    - rewrite saveLog_nil, fmap_nil, decide_False by apply not_elem_of_nil. reflexivity.
    - rewrite saveLog_cons. destruct (decide (date x = date log)) as [Ex | Ex].
      + rewrite decide_True by (rewrite fmap_cons, Ex; apply list_elem_of_here).
        rewrite !fmap_cons, Ex. reflexivity.
      + rewrite !fmap_cons, IH. destruct (decide (date log ∈ date <$> logs)) as [Hin | Hin].
        * rewrite decide_True by (apply list_elem_of_further, Hin). reflexivity.
        * rewrite decide_False; [reflexivity |].
          rewrite not_elem_of_cons. split; [congruence | exact Hin]. }
  split; [exact E |]. intros Hn. rewrite E.
  destruct (decide (date log ∈ date <$> logs)) as [Hin | Hin]; [exact Hn |].
  apply NoDup_app. split; [exact Hn |]. split; [| apply NoDup_singleton].
  intros d Hd Hd'. apply list_elem_of_singleton in Hd'. subst d. contradiction.
Qed.

Lemma saveLog_keeps_one_log_per_date_witness :
  NoDup (date <$> saveLog [mkLog (mkDate 2024 1 1) (Some Heavy); mkLog (mkDate 2024 1 2) None]
                   (mkLog (mkDate 2024 1 1) (Some Spotting))).
Proof.
  apply (proj2 (saveLog_keeps_one_log_per_date _ _)). cbn.
  apply NoDup_cons. split; [| apply NoDup_singleton].
  rewrite list_elem_of_singleton. discriminate.
Defined.

(** The last save of a date wins: saving a log and then another log of the
    same date leaves the list that saving the second alone would. *)
Theorem saveLog_last_write_wins (logs : list DailyLog) (a b : DailyLog) :
  date a = date b -> saveLog (saveLog logs a) b = saveLog logs b.
Proof.
  intros Hab. induction logs as [| x logs IH].
  - rewrite !saveLog_nil, saveLog_cons, decide_True by exact Hab. reflexivity.
  - rewrite !(saveLog_cons x). rewrite Hab.
    destruct (decide (date x = date b)) as [E | E]; rewrite saveLog_cons.
    + rewrite decide_True by exact Hab. reflexivity.
    + rewrite decide_False by exact E. rewrite IH. reflexivity.
Qed.

Lemma saveLog_last_write_wins_witness :
  saveLog (saveLog [mkLog (mkDate 2024 1 2) None] (mkLog (mkDate 2024 1 1) (Some Heavy)))
          (mkLog (mkDate 2024 1 1) None) =
  [mkLog (mkDate 2024 1 2) None; mkLog (mkDate 2024 1 1) None].
Proof.
  rewrite (saveLog_last_write_wins _ (mkLog (mkDate 2024 1 1) (Some Heavy))
             (mkLog (mkDate 2024 1 1) None) eq_refl).
  reflexivity.
Defined.

(** ** [saveCycles] *)

Lemma insertByStart_Forall (P : Cycle -> Prop) x l :
  P x -> Forall P l -> Forall P (insertByStart x l).
Proof.
  intros Hx. induction 1 as [| y l Hy Hl IH]; cbn [insertByStart].
  - constructor; [exact Hx | constructor].
  - destruct (_ <? _); repeat constructor; assumption.
Qed.

Lemma insertByStart_sorted x l :
  StronglySorted notOlderThan l -> StronglySorted notOlderThan (insertByStart x l).
Proof.
  induction 1 as [| y l Hl IH Hy]; cbn [insertByStart].
  - repeat constructor.
  - destruct (Date_parse (startDate x) <? Date_parse (startDate y)) eqn:E;
      [apply Z.ltb_lt in E | apply Z.ltb_ge in E].
    + constructor; [exact IH |].
      apply insertByStart_Forall; [unfold notOlderThan; lia | exact Hy].
    + constructor; [constructor; assumption |].
      constructor; [exact E |].
      eapply Forall_impl; [exact Hy |]. unfold notOlderThan. intros; lia.
Qed.

Lemma insertByStart_perm x l : insertByStart x l ≡ₚ x :: l.
Proof.
  induction l as [| y l IH]; cbn [insertByStart]; [reflexivity |].
  destruct (_ <? _); [| reflexivity]. rewrite IH. apply Permutation_swap.
Qed.

Lemma saveCycles_perm cs : saveCycles cs ≡ₚ cs.
Proof.
  induction cs as [| x cs IH]; [reflexivity |].
  cbn [saveCycles foldr]. fold (saveCycles cs). rewrite insertByStart_perm, IH. reflexivity.
Qed.

Lemma saveCycles_sorted cs : StronglySorted notOlderThan (saveCycles cs).
Proof.
  induction cs as [| x cs IH]; cbn; [constructor | apply insertByStart_sorted, IH].
Qed.

Lemma saveCycles_of_sorted cs : StronglySorted notOlderThan cs -> saveCycles cs = cs.
Proof.
  induction 1 as [| x l Hl IH Hx]; [reflexivity |].
  cbn [saveCycles foldr]. fold (saveCycles l). rewrite IH.
  destruct l as [| y l]; [reflexivity |]. cbn [insertByStart].
  inversion Hx as [| ? ? Hxy _]; subst. unfold notOlderThan in Hxy.
  destruct (Date_parse (startDate x) <? Date_parse (startDate y)) eqn:E; [| reflexivity].
  apply Z.ltb_lt in E. lia.
Qed.

Lemma newerThan_notOlderThan cs : StronglySorted newerThan cs -> StronglySorted notOlderThan cs.
Proof.
  induction 1 as [| x l Hl IH Hx]; constructor; [exact IH |].
  eapply Forall_impl; [exact Hx |]. unfold newerThan, notOlderThan. intros; lia.
Qed.

(** [saveCycles] returns the cycles it is given, rearranged so that no
    cycle comes before one with a later start date: the first saved cycle
    is a latest one.  A list already in that order is returned as it is, so
    saving twice is saving once. *)
Theorem saveCycles_latest_first (cs : list Cycle) :
  saveCycles cs ≡ₚ cs /\
  StronglySorted notOlderThan (saveCycles cs) /\
  (forall c c', saveCycles cs !! 0%nat = Some c -> c' ∈ cs -> notOlderThan c c') /\
  saveCycles (saveCycles cs) = saveCycles cs.
Proof.
  pose proof (saveCycles_sorted cs) as Hs. pose proof (saveCycles_perm cs) as Hp.
  split; [exact Hp |]. split; [exact Hs |]. split; [| apply saveCycles_of_sorted, Hs].
  intros c c' H0 Hc'. rewrite <- Hp in Hc'.
  destruct (saveCycles cs) as [| c0 r]; [discriminate |]. injection H0 as ->.
  apply elem_of_cons in Hc' as [-> | Hc']; [unfold notOlderThan; lia |].
  inversion Hs as [| ? ? _ Hall]; subst. rewrite Forall_forall in Hall. apply Hall, Hc'.
Qed.

(** * The application state *)

(** ** What [analyzeCyclesFromLogs] hands to [saveCycles] *)

Lemma analyze_newest_first zone logs d :
  zone_within_a_day zone -> StronglySorted newerThan (analyzeCyclesFromLogs zone logs d).
Proof.
  intros Hz. rewrite analyze_unfold.
  pose proof (sortByTime_sorted (filter isFlowLog logs)) as Hs.
  destruct (sortByTime (filter isFlowLog logs)) as [| l0 rest]; [constructor |].
  apply scanResult_sorted. inversion Hs as [| ? ? Hs' Hl0]; subst.
  apply scan_invariant; try assumption.
  split; [cbn; lia |]. split; constructor.
Qed.

Lemma analyze_nil_iff zone logs d :
  analyzeCyclesFromLogs zone logs d = [] <-> filter isFlowLog logs = [].
Proof.
  rewrite analyze_unfold.
  destruct (sortByTime (filter isFlowLog logs)) as [| l0 rest] eqn:E.
  - split; [intros _; apply sortByTime_nil, E | reflexivity].
  - split; [| intros H; rewrite H in E; discriminate].
    unfold scanResult. rewrite rev_app_distr. discriminate.
Qed.

Lemma saveCycles_analyze zone logs d :
  zone_within_a_day zone ->
  saveCycles (analyzeCyclesFromLogs zone logs d) = analyzeCyclesFromLogs zone logs d.
Proof.
  intros Hz. apply saveCycles_of_sorted, newerThan_notOlderThan, analyze_newest_first, Hz.
Qed.

(** The default length reaches the open cycle only. *)
Lemma analyze_default zone logs d1 d2 :
  analyzeCyclesFromLogs zone logs d2 =
  match analyzeCyclesFromLogs zone logs d1 with
  | [] => []
  | c :: r => mkCycle (startDate c) (endDate c) d2 :: r
  end.
Proof.
  rewrite !analyze_unfold. destruct (sortByTime (filter isFlowLog logs)) as [| l0 rest];
    [reflexivity |].
  unfold scanResult. rewrite !rev_app_distr. reflexivity.
Qed.

Lemma length_pos_false {A} (l : list A) : (0 <? List.length l)%nat = false <-> l = [].
Proof. destruct l; cbn; split; congruence. Qed.

(** ** [handleSaveLog] *)

(** In a zone within a day of UTC, after a log with any flow value
    (spotting too) is saved, the logs of the state are the stored logs with
    the new log saved, and the cycles of the state are the segmenter's cycles
    of these logs. *)
Theorem handleSaveLog_with_flow
    (zone : Z -> bool -> Z) (st : AppState) (newLog : DailyLog) :
  zone_within_a_day zone ->
  validDates (storedLogs st) -> valid_date (date newLog) = true ->
  flow newLog <> None ->
  let st' := handleSaveLog zone st newLog in
  stateLogs st' = saveLog (storedLogs st) newLog /\
  storedLogs st' = stateLogs st' /\
  stateCycles st' =
    analyzeCyclesFromLogs zone (stateLogs st') (avgCycleLength (stateSettings st')).
Proof.
  intros Hz _ _ Hf. unfold handleSaveLog. cbv zeta.
  destruct (flow newLog) as [f |]; [clear Hf | congruence].
  destruct (0 <? List.length (analyzeCyclesFromLogs zone (saveLog (storedLogs st) newLog)
                                (avgCycleLength (stateSettings st))))%nat eqn:E.
  - cbn [stateLogs storedLogs stateCycles stateSettings].
    rewrite saveCycles_analyze by exact Hz. auto.
  - apply length_pos_false in E.
    pose proof (proj1 (analyze_nil_iff _ _ _) E) as Hnone. rewrite Hnone. cbn [List.length].
    destruct (0 <? List.length (stateCycles st))%nat eqn:E2;
      cbn [andb Nat.eqb stateLogs storedLogs stateCycles stateSettings].
    + rewrite E. auto.
    + apply length_pos_false in E2. rewrite E, E2. auto.
Qed.

Lemma handleSaveLog_with_flow_witness :
  stateCycles (handleSaveLog zoneUTC
    (mkApp [mkLog (mkDate 2024 1 1) (Some Heavy)] [] [] [] (mkSettings 28 5))
    (mkLog (mkDate 2024 1 20) (Some Light))) =
  [mkCycle (mkDate 2024 1 20) None 28; mkCycle (mkDate 2024 1 1) None 19].
Proof.
  assert (Hz : zone_within_a_day zoneUTC) by (intros t; unfold zoneUTC, fixedZone; lia).
  rewrite (proj2 (proj2 (handleSaveLog_with_flow zoneUTC
    (mkApp [mkLog (mkDate 2024 1 1) (Some Heavy)] [] [] [] (mkSettings 28 5))
    (mkLog (mkDate 2024 1 20) (Some Light)) Hz
    ltac:(repeat constructor) eq_refl ltac:(discriminate)))).
  vm_compute. reflexivity.
Defined.

(** Starting without logs and cycles, a first period log gives one open
    cycle.  Saving a log without flow over it leaves that cycle in the
    state although no period log is left; saving a spotting log over it
    empties the cycles. *)
Theorem handleSaveLog_clearing_the_flow
    (zone : Z -> bool -> Z) (st : AppState) (d : ISODate) (f : FlowIntensity) :
  storedLogs st = [] -> stateCycles st = [] -> valid_date d = true -> f <> Spotting ->
  let st1 := handleSaveLog zone st (mkLog d (Some f)) in
  let st2 := handleSaveLog zone st1 (mkLog d None) in
  let st3 := handleSaveLog zone st1 (mkLog d (Some Spotting)) in
  stateCycles st1 =
    [mkCycle (formatDateISO zone (Date_parse d)) None (avgCycleLength (stateSettings st))] /\
  stateLogs st2 = [mkLog d None] /\ stateCycles st2 = stateCycles st1 /\
  stateLogs st3 = [mkLog d (Some Spotting)] /\ stateCycles st3 = [].
Proof.
  intros Hl Hc _ Hf.
  assert (Ha : isFlowLog (mkLog d (Some f))) by exact Hf.
  assert (E1 : handleSaveLog zone st (mkLog d (Some f)) =
               mkApp [mkLog d (Some f)]
                 [mkCycle (formatDateISO zone (Date_parse d)) None
                    (avgCycleLength (stateSettings st))]
                 [mkLog d (Some f)]
                 [mkCycle (formatDateISO zone (Date_parse d)) None
                    (avgCycleLength (stateSettings st))]
                 (stateSettings st)).
  { unfold handleSaveLog. rewrite Hl, saveLog_nil. cbn [flow].
    rewrite (analyze_single zone _ _ Ha). reflexivity. }
  cbv zeta. rewrite E1. cbn [stateCycles].
  split; [reflexivity |].
  unfold handleSaveLog. cbn [storedLogs stateSettings stateCycles storedCycles flow].
  rewrite !saveLog_cons, !decide_True by reflexivity.
  cbn [stateLogs stateCycles flow].
  split; [reflexivity |]. split; [reflexivity |].
  rewrite (no_flow_log_no_cycle zone [mkLog d (Some Spotting)]);
    [| repeat constructor; apply spotting_is_not_flow].
  rewrite filter_cons_False by apply spotting_is_not_flow.
  cbn. split; reflexivity.
Qed.

Lemma handleSaveLog_clearing_the_flow_witness :
  let st1 := handleSaveLog zoneUTC (mkApp [] [] [] [] (mkSettings 28 5))
               (mkLog (mkDate 2024 1 1) (Some Heavy)) in
  stateCycles (handleSaveLog zoneUTC st1 (mkLog (mkDate 2024 1 1) None)) = stateCycles st1.
Proof.
  exact (proj1 (proj2 (proj2 (handleSaveLog_clearing_the_flow zoneUTC
           (mkApp [] [] [] [] (mkSettings 28 5)) (mkDate 2024 1 1) Heavy
           eq_refl eq_refl eq_refl ltac:(discriminate))))).
Defined.

(** ** [handleSaveSettings] *)

(** When the cycles of the state are the segmenter's cycles of its logs,
    saving new settings changes the length of the open cycle to the new
    default and nothing else of the cycles. *)
Theorem handleSaveSettings_updates_the_open_cycle
    (zone : Z -> bool -> Z) (st : AppState) (newSettings : UserSettings) :
  zone_within_a_day zone -> validDates (stateLogs st) ->
  stateCycles st =
    analyzeCyclesFromLogs zone (stateLogs st) (avgCycleLength (stateSettings st)) ->
  let st' := handleSaveSettings zone st newSettings in
  stateSettings st' = newSettings /\ stateLogs st' = stateLogs st /\
  stateCycles st' =
    match stateCycles st with
    | [] => []
    | c :: r => mkCycle (startDate c) (endDate c) (avgCycleLength newSettings) :: r
    end.
Proof.
  intros Hz _ Hsync. unfold handleSaveSettings. cbv zeta.
  pose proof (analyze_default zone (stateLogs st) (avgCycleLength (stateSettings st))
                (avgCycleLength newSettings)) as Hd.
  rewrite <- Hsync in Hd.
  destruct (0 <? List.length (stateLogs st))%nat eqn:E.
  - destruct (0 <? List.length (analyzeCyclesFromLogs zone (stateLogs st)
                                  (avgCycleLength newSettings)))%nat eqn:E2;
      cbn [stateLogs storedLogs stateCycles stateSettings].
    + rewrite saveCycles_analyze by exact Hz. auto.
    + apply length_pos_false in E2. rewrite E2 in Hd.
      destruct (stateCycles st); [auto | discriminate].
  - cbn [stateLogs storedLogs stateCycles stateSettings].
    apply length_pos_false in E. rewrite E in Hsync.
    rewrite Hsync. auto.
Qed.

Lemma handleSaveSettings_witness :
  stateCycles (handleSaveSettings zoneUTC
    (mkApp [] [] [mkLog (mkDate 2024 1 1) (Some Heavy); mkLog (mkDate 2024 1 20) (Some Light)]
       [mkCycle (mkDate 2024 1 20) None 28; mkCycle (mkDate 2024 1 1) None 19]
       (mkSettings 28 5))
    (mkSettings 30 5)) =
  [mkCycle (mkDate 2024 1 20) None 30; mkCycle (mkDate 2024 1 1) None 19].
Proof.
  assert (Hz : zone_within_a_day zoneUTC) by (intros t; unfold zoneUTC, fixedZone; lia).
  exact (proj2 (proj2 (handleSaveSettings_updates_the_open_cycle zoneUTC
    (mkApp [] [] [mkLog (mkDate 2024 1 1) (Some Heavy); mkLog (mkDate 2024 1 20) (Some Light)]
       [mkCycle (mkDate 2024 1 20) None 28; mkCycle (mkDate 2024 1 1) None 19]
       (mkSettings 28 5))
    (mkSettings 30 5) Hz ltac:(repeat constructor) ltac:(vm_compute; reflexivity)))).
Defined.

(** * The writes of the projector *)

Section Folds.

Context {S X Y : Type} (f : S -> Y -> S).

Lemma fold_left_fmap (g : X -> Y) l s :
  fold_left f (g <$> l) s = fold_left (fun s x => f s (g x)) l s.
Proof. revert s. induction l as [| x l IH]; intros s; [reflexivity | apply IH]. Qed.

Lemma fold_left_bind (g : X -> list Y) l s :
  fold_left f (l ≫= g) s = fold_left (fun s x => fold_left f (g x) s) l s.
Proof.
  revert s. induction l as [| x l IH]; intros s; [reflexivity |].
  rewrite bind_cons, fold_left_app. apply IH.
Qed.

Lemma fold_left_ext (f' : S -> Y -> S) l s :
  (forall s y, f s y = f' s y) -> fold_left f l s = fold_left f' l s.
Proof.
  intros H. revert s. induction l as [| y l IH]; intros s; [reflexivity |].
  cbn [fold_left]. rewrite H. apply IH.
Qed.

End Folds.

Lemma markFertile_applyMark zone s L c m o :
  markFertile zone
    (setDate zone (setDate zone s (getDate zone s + L * c))
       (getDate zone (setDate zone s (getDate zone s + L * c)) - 14)) m o =
  applyMark m (MarkFertile (fertileDay zone s L c o) (o =? 0)).
Proof. unfold markFertile, applyMark, fertileDay, nextStartOf. cbv zeta. reflexivity. Qed.

Lemma markPeriod_applyMark zone s L c m i :
  markPeriod zone (setDate zone s (getDate zone s + L * c)) m i =
  applyMark m (MarkPeriod (periodDay zone s L c i)).
Proof. unfold markPeriod, applyMark, periodDay, nextStartOf. cbv zeta. reflexivity. Qed.

Lemma projectCycle_marks zone s L p m c :
  projectCycle zone s L p m c = fold_left applyMark (cycleMarks zone s L p c) m.
Proof.
  unfold projectCycle, cycleMarks. cbv zeta. rewrite fold_left_app, !fold_left_fmap.
  rewrite (fold_left_ext _ _ _ _ (markFertile_applyMark zone s L c)).
  rewrite (fold_left_ext _ _ _ _ (markPeriod_applyMark zone s L c)).
  reflexivity.
Qed.

(** The projected map is the result of the writes, made in order on the
    empty map. *)
Lemma projectFuture_marks zone s L p :
  projectFuture zone s L p = fold_left applyMark (futureMarks zone s L p) ∅.
Proof.
  unfold projectFuture, futureMarks. rewrite fold_left_bind.
  apply fold_left_ext. intros m c. apply projectCycle_marks.
Qed.

Lemma elem_of_futureMarks zone s L p w :
  w ∈ futureMarks zone s L p <->
  exists c, 1 <= c <= 12 /\
    ((exists i, 0 <= i < p /\ w = MarkPeriod (periodDay zone s L c i)) \/
     (exists o, -5 <= o <= 1 /\ w = MarkFertile (fertileDay zone s L c o) (o =? 0))).
Proof.
  unfold futureMarks. rewrite list_elem_of_bind. split.
  - intros (c & Hw & Hc). apply elem_of_seqZ in Hc. exists c. split; [lia |].
    unfold cycleMarks in Hw. apply elem_of_app in Hw as [Hw | Hw];
      apply list_elem_of_fmap in Hw as (x & -> & Hx); apply elem_of_seqZ in Hx.
    + left. exists x. split; [lia | reflexivity].
    + right. exists x. split; [lia | reflexivity].
  - intros (c & Hc & Hw). exists c. split; [| apply elem_of_seqZ; lia].
    unfold cycleMarks. apply elem_of_app.
    destruct Hw as [(i & Hi & ->) | (o & Ho & ->)]; [left | right];
      apply list_elem_of_fmap; eexists; (split; [reflexivity | apply elem_of_seqZ; lia]).
Qed.

Lemma MarkPeriod_inj a b : MarkPeriod a = MarkPeriod b -> a = b.
Proof. intros [= H]. exact H. Qed.

Lemma MarkFertile_inj a b x y : MarkFertile a x = MarkFertile b y -> a = b /\ x = y.
Proof. intros [= H1 H2]. split; assumption. Qed.

(** Where an entry of the map comes from. *)
Lemma applyMark_origin ops m k e :
  fold_left applyMark ops m !! k = Some e ->
  m !! k = Some e \/
  (e = periodMarker /\ MarkPeriod k ∈ ops) \/
  (exists ov, e = mkMarker false true ov /\ MarkFertile k ov ∈ ops).
Proof.
  revert m. induction ops as [| w ops IH]; intros m H; [left; exact H |].
  cbn [fold_left] in H. apply IH in H as [H | [[-> H] | (ov & -> & H)]].
  - destruct w as [iso | iso ov]; cbn [applyMark] in H.
    + rewrite lookup_insert in H. case_decide as Hk; [| left; exact H].
      subst iso. injection H as <-. right; left. split; [reflexivity | apply list_elem_of_here].
    + destruct (negb _); [| left; exact H].
      rewrite lookup_insert in H. case_decide as Hk; [| left; exact H].
      subst iso. injection H as <-. right; right. exists ov.
      split; [reflexivity | apply list_elem_of_here].
  - right; left. split; [reflexivity | apply list_elem_of_further, H].
  - right; right. exists ov. split; [reflexivity | apply list_elem_of_further, H].
Qed.

Lemma applyMark_present ops m k :
  is_Some (m !! k) \/ MarkPeriod k ∈ ops \/ (exists ov, MarkFertile k ov ∈ ops) ->
  is_Some (fold_left applyMark ops m !! k).
Proof.
  revert m. induction ops as [| w ops IH]; intros m H.
  - destruct H as [H | [H | [ov H]]]; [exact H | inversion H | inversion H].
  - cbn [fold_left]. apply IH.
    assert (Hkeep : is_Some (m !! k) -> is_Some (applyMark m w !! k)).
    { intros Hs. destruct w as [iso | iso ov]; cbn [applyMark].
      - rewrite lookup_insert. case_decide; [eexists; reflexivity | exact Hs].
      - destruct (negb _); [| exact Hs].
        rewrite lookup_insert. case_decide; [eexists; reflexivity | exact Hs]. }
    destruct H as [H | [H | [ov H]]]; [left; apply Hkeep, H | |].
    + apply elem_of_cons in H as [<- | H]; [| right; left; exact H].
      left. cbn [applyMark]. rewrite lookup_insert_eq. eexists; reflexivity.
    + apply elem_of_cons in H as [<- | H]; [| right; right; exists ov; exact H].
      left. cbn [applyMark]. destruct (negb _) eqn:E.
      * rewrite lookup_insert_eq. eexists; reflexivity.
      * destruct (m !! k); [eexists; reflexivity | discriminate].
Qed.

(** A date that no period write names, and some fertile write does, ends
    with the marker of one of its fertile writes. *)
Lemma applyMark_fertile (P : bool -> Prop) ops m k :
  MarkPeriod k ∉ ops ->
  (forall ov, MarkFertile k ov ∈ ops -> P ov) ->
  (exists ov, m !! k = Some (mkMarker false true ov) /\ P ov) \/
  (m !! k = None /\ exists ov, MarkFertile k ov ∈ ops) ->
  exists ov, fold_left applyMark ops m !! k = Some (mkMarker false true ov) /\ P ov.
Proof.
  revert m. induction ops as [| w ops IH]; intros m Hp Hf H.
  - destruct H as [H | [_ [ov H]]]; [exact H | inversion H].
  - cbn [fold_left]. apply not_elem_of_cons in Hp as [Hw Hp].
    apply IH; [exact Hp | intros ov Hov; apply Hf, list_elem_of_further, Hov |].
    assert (Hnp : from_option isProjectedPeriod false (m !! k) = false).
    { destruct H as [(ov & -> & _) | [-> _]]; reflexivity. }
    destruct w as [iso | iso ov]; cbn [applyMark].
    + assert (iso <> k) by congruence. rewrite lookup_insert_ne by assumption.
      destruct H as [H | [Hn [ov H]]]; [left; exact H | right].
      split; [exact Hn |]. exists ov.
      apply elem_of_cons in H as [H | H]; [discriminate | exact H].
    + destruct (decide (iso = k)) as [-> | Hne].
      * rewrite Hnp. cbn [negb]. rewrite lookup_insert_eq. left. exists ov.
        split; [reflexivity | apply Hf, list_elem_of_here].
      * assert (Hsame : (if negb (from_option isProjectedPeriod false (m !! iso))
                         then <[iso := mkMarker false true ov]> m else m) !! k = m !! k).
        { destruct (negb _); [apply lookup_insert_ne, Hne | reflexivity]. }
        rewrite Hsame.
        destruct H as [H | [Hn [ov' H]]]; [left; exact H | right].
        split; [exact Hn |]. exists ov'.
        apply elem_of_cons in H as [H | H]; [congruence | exact H].
Qed.

(** Every entry of the projected map was written for a projected period day
    or for a day of a fertile window of one of the twelve cycles, and
    carries the marker of that write: no other date is marked, and the
    ovulation flag is set only on the ovulation date of a cycle.  Every day
    of every fertile window has an entry. *)
Theorem projector_marks_only_projected_days
    (zone : Z -> bool -> Z) (latestStart smartLength periodLen : Z) :
  let m := projectFuture zone latestStart smartLength periodLen in
  (forall k e, m !! k = Some e ->
     (e = periodMarker /\
      exists c i, 1 <= c <= 12 /\ 0 <= i < periodLen /\
                  k = periodDay zone latestStart smartLength c i) \/
     (exists c o, 1 <= c <= 12 /\ -5 <= o <= 1 /\
                  k = fertileDay zone latestStart smartLength c o /\
                  e = mkMarker false true (o =? 0))) /\
  (forall c o, 1 <= c <= 12 -> -5 <= o <= 1 ->
     is_Some (m !! fertileDay zone latestStart smartLength c o)).
Proof.
  intros m. unfold m. rewrite projectFuture_marks. split.
  - intros k e He. apply applyMark_origin in He as [He | [[-> He] | (ov & -> & He)]].
    + rewrite lookup_empty in He. discriminate.
    + left. split; [reflexivity |].
      apply elem_of_futureMarks in He as (c & Hc & [(i & Hi & E) | (o & Ho & E)]);
        [| discriminate].
      injection E as ->. exists c, i. auto.
    + right.
      apply elem_of_futureMarks in He as (c & Hc & [(i & Hi & E) | (o & Ho & E)]);
        [discriminate |].
      injection E as -> ->. exists c, o. auto.
  - intros c o Hc Ho. apply applyMark_present. right; right. exists (o =? 0).
    apply elem_of_futureMarks. exists c. split; [exact Hc |]. right. exists o. auto.
Qed.

(** ** The days of the projected dates, in a zone with a fixed offset *)

Lemma Day_LocalTime_parse k anchor n :
  -1440 <= k < 1440 ->
  JS.Day (LocalTime (fixedZone k) (Date_parse anchor + n * JS.msPerDay)) =
  JS.Day (Date_parse anchor) + n - (if k <? 0 then 1 else 0).
Proof.
  intros Hk. rewrite (Date_parse_whole_days anchor) at 1. apply Day_LocalTime_fixed, Hk.
Qed.

Lemma Day_periodDay k anchor L c i :
  -1440 <= k < 1440 ->
  JS.Day (Date_parse (periodDay (fixedZone k) (Date_parse anchor) L c i)) =
  JS.Day (Date_parse anchor) + (L * c + i) - (if k <? 0 then 1 else 0).
Proof.
  intros Hk. unfold periodDay, nextStartOf. cbv zeta.
  rewrite !setDate_getDate_fixed, Day_formatDateISO.
  rewrite <- (Day_LocalTime_parse k anchor (L * c + i) Hk). f_equal. f_equal.
  generalize (Date_parse anchor) (L * c). intros t q. unfold JS.msPerDay. lia.
Qed.

Lemma Day_fertileDay k anchor L c o :
  -1440 <= k < 1440 ->
  JS.Day (Date_parse (fertileDay (fixedZone k) (Date_parse anchor) L c o)) =
  JS.Day (Date_parse anchor) + (L * c - 14 + o) - (if k <? 0 then 1 else 0).
Proof.
  intros Hk. etransitivity; [| exact (Day_LocalTime_parse k anchor (L * c - 14 + o) Hk)].
  unfold fertileDay, nextStartOf. cbv zeta.
  rewrite <- !Z.add_opp_r. rewrite !setDate_getDate_fixed, Day_formatDateISO.
  f_equal. f_equal.
  generalize (Date_parse anchor) (L * c). intros t q. unfold JS.msPerDay. lia.
Qed.

(** Cycles [c] and [c'] of length [L] with [L * c + a = L * c' + b] for
    offsets less than a cycle apart are the same cycle. *)
Lemma same_cycle L c c' a b :
  0 < L -> L * c + a = L * c' + b -> - L < b - a < L -> c = c'.
Proof. intros HL E Hab. nia. Qed.

(** When a cycle is at least nineteen days longer than the period (and
    seven days long), every day of every projected fertile window is marked
    fertile, in any zone with a fixed offset, and the ovulation flag is on
    the ovulation date of the window and on none of its other days. *)
Theorem projector_fertile_windows_complete
    (k : Z) (anchor : ISODate) (smartLength periodLen c o : Z) :
  -1440 <= k < 1440 -> valid_date anchor = true ->
  7 <= smartLength -> periodLen + 19 <= smartLength ->
  1 <= c <= 12 -> -5 <= o <= 1 ->
  projectFuture (fixedZone k) (Date_parse anchor) smartLength periodLen
    !! fertileDay (fixedZone k) (Date_parse anchor) smartLength c o =
  Some (mkMarker false true (o =? 0)).
Proof.
  intros Hk _ HL Hp Hc Ho. rewrite projectFuture_marks.
  pose proof (Day_fertileDay k anchor smartLength c o Hk) as HK.
  remember (fertileDay (fixedZone k) (Date_parse anchor) smartLength c o) as K eqn:EK.
  destruct (applyMark_fertile (fun ov => ov = (o =? 0))
              (futureMarks (fixedZone k) (Date_parse anchor) smartLength periodLen) ∅ K)
    as (ov & Hov & ->); [| | | exact Hov].
  - intros Hin. apply elem_of_futureMarks in Hin as (c' & Hc' & [(i & Hi & E) | (o' & _ & E)]);
      [| discriminate E].
    apply MarkPeriod_inj in E. apply (f_equal (fun d => JS.Day (Date_parse d))) in E.
    rewrite HK, Day_periodDay in E by exact Hk.
    assert (c' < c) by nia. nia.
  - intros ov Hin.
    apply elem_of_futureMarks in Hin as (c' & Hc' & [(i & _ & E) | (o' & Ho' & E)]);
      [discriminate E |].
    apply MarkFertile_inj in E as [E ->].
    apply (f_equal (fun d => JS.Day (Date_parse d))) in E.
    rewrite HK, Day_fertileDay in E by exact Hk.
    assert (c = c') by (apply (same_cycle smartLength c c' o o'); lia).
    subst c'. f_equal. lia.
  - right. split; [apply lookup_empty |]. exists (o =? 0).
    apply elem_of_futureMarks. exists c. split; [exact Hc |]. right. exists o.
    split; [exact Ho | rewrite EK; reflexivity].
Qed.

Lemma projector_fertile_windows_witness :
  projectFuture zoneWest5 (Date_parse (mkDate 2024 1 1)) 28 5 !! mkDate 2024 1 14 =
  Some (mkMarker false true true).
Proof.
  exact (projector_fertile_windows_complete (-300) (mkDate 2024 1 1) 28 5 1 0
           ltac:(lia) eq_refl ltac:(lia) ltac:(lia) ltac:(lia) ltac:(lia)).
Defined.

(** * The wheel *)

Lemma YearFromDay_recent d : -365 <= d -> 1969 <= JS.YearFromDay d.
Proof.
  intros Hd. pose proof (YearFromDay_bracket d) as [_ B].
  destruct (Z_lt_le_dec (JS.YearFromDay d) 1969) as [Hlt | Hge]; [| exact Hge].
  pose proof (DayFromYear_mono (JS.YearFromDay d + 1) 1969 ltac:(lia)) as M.
  change (JS.DayFromYear 1969) with (-365) in M. lia.
Qed.

Lemma centuryYear_id y : ~ (0 <= y <= 99) -> centuryYear y = y.
Proof.
  intros H. unfold centuryYear.
  destruct (0 <=? y) eqn:E1; [| reflexivity]. destruct (y <=? 99) eqn:E2; [| reflexivity].
  apply Z.leb_le in E1, E2. lia.
Qed.

Lemma Date_local_fixed k y m d :
  Date_local (fixedZone k) y m d =
  JS.MakeDay (centuryYear y) m d * JS.msPerDay - k * JS.msPerMinute.
Proof. unfold Date_local, UTC, LocalTZA, fixedZone, JS.MakeDate, centuryYear. lia. Qed.

Lemma wheelDaysDiff_fixed k today c :
  ~ (0 <= getFullYear (fixedZone k) today <= 99) -> ~ (0 <= year (startDate c) <= 99) ->
  wheelDaysDiff (fixedZone k) today c =
  JS.Day (LocalTime (fixedZone k) today) - JS.Day (Date_parse (startDate c)).
Proof.
  intros Ht Hs. unfold wheelDaysDiff. cbv zeta. rewrite !Date_local_fixed.
  unfold getFullYear in Ht. rewrite !centuryYear_id by assumption.
  rewrite MakeDay_of_Day, Day_Date_parse.
  set (a := JS.Day (LocalTime (fixedZone k) today)).
  set (b := JS.MakeDay (year (startDate c)) (month (startDate c) - 1) (day (startDate c))).
  replace (a * JS.msPerDay - k * JS.msPerMinute - (b * JS.msPerDay - k * JS.msPerMinute))
    with ((a - b) * (1000 * 60 * 60 * 24)) by (unfold JS.msPerDay; lia).
  apply Z.div_mul. discriminate.
Qed.

Lemma Day_LocalTime_recent k now :
  -1440 <= k < 1440 -> 0 <= now -> -1 <= JS.Day (LocalTime (fixedZone k) now).
Proof.
  intros Hk Hn. unfold LocalTime, LocalTZA, fixedZone, JS.Day, JS.msPerDay, JS.msPerMinute.
  Z.div_mod_to_equations. lia.
Qed.

(** In a zone with a fixed offset, for valid dates outside the years 0 to
    99, the day count of the wheel is the whole-day difference from the start date to
    today's local date: the wheel has no shift of its own. *)
Theorem wheel_counts_days_to_the_local_date (k today : Z) (c : Cycle) :
  valid_date (startDate c) = true -> valid_date (formatDateISO (fixedZone k) today) = true ->
  ~ (0 <= getFullYear (fixedZone k) today <= 99) -> ~ (0 <= year (startDate c) <= 99) ->
  wheelDaysDiff (fixedZone k) today c =
  diffDaysBetween (startDate c) (formatDateISO (fixedZone k) today).
Proof.
  intros _ _ Ht Hs. rewrite wheelDaysDiff_fixed by assumption.
  rewrite diffDaysBetween_days, Day_formatDateISO. reflexivity.
Qed.

Lemma wheel_counts_days_witness :
  wheelDaysDiff zoneWest5 (Date_parse (mkDate 2024 1 20)) (mkCycle (mkDate 2024 1 1) None 28) =
  18.
Proof.
  etransitivity;
    [exact (wheel_counts_days_to_the_local_date (-300) (Date_parse (mkDate 2024 1 20))
              (mkCycle (mkDate 2024 1 1) None 28) eq_refl ltac:(vm_compute; reflexivity)
              ltac:(vm_compute; intros [_ H]; apply H; reflexivity)
              ltac:(vm_compute; intros [_ H]; apply H; reflexivity)) |].
  vm_compute. reflexivity.
Defined.

Lemma wheelStatus_first_days n L p :
  0 <= n -> n + 1 <= L -> n + 1 <= p -> wheelStatus n L p = Menstruation (n + 1).
Proof.
  intros Hn HL Hp. unfold wheelStatus. cbv zeta.
  replace (n <? 0) with false by (symmetry; apply Z.ltb_ge; lia).
  replace (Z.max 1 (n + 1)) with (n + 1) by lia.
  replace (L - (n + 1) <? 0) with false by (symmetry; apply Z.ltb_ge; lia).
  replace (n + 1 <=? p) with true by (symmetry; apply Z.leb_le; lia).
  reflexivity.
Qed.

Lemma periodLen_default p : 0 <= p -> 1 <= (if p =? 0 then 5 else p).
Proof. intros Hp. destruct (p =? 0) eqn:E; [lia | apply Z.eqb_neq in E; lia]. Qed.

(** With no cycle in the state the wheel is given a cycle starting today,
    and shows day 1 of menstruation. *)
Theorem wheel_without_cycles (k now : Z) (st : AppState) :
  -1440 <= k < 1440 -> 0 <= now ->
  stateCycles st = [] ->
  1 <= avgCycleLength (stateSettings st) -> 0 <= avgPeriodLength (stateSettings st) ->
  CycleWheel (fixedZone k) now (appLatestCycle (fixedZone k) now st)
             (stateSettings st) (stateCycles st) = Menstruation 1.
Proof.
  intros Hk Hn Hc HL Hp. unfold CycleWheel, appLatestCycle. cbv zeta. rewrite Hc.
  rewrite estimator_none by reflexivity.
  pose proof (Day_LocalTime_recent k now Hk Hn) as Hd.
  rewrite wheelDaysDiff_fixed.
  - cbn [startDate]. rewrite Day_formatDateISO, Z.sub_diag.
    apply (wheelStatus_first_days 0); [lia | lia |].
    pose proof (periodLen_default _ Hp). lia.
  - unfold getFullYear.
    pose proof (YearFromDay_recent (JS.Day (LocalTime (fixedZone k) now)) ltac:(lia)). lia.
  - cbn [startDate]. rewrite formatDateISO_local. unfold toISODate. cbn [year].
    pose proof (YearFromDay_recent (JS.Day (LocalTime (fixedZone k) now)) ltac:(lia)). lia.
Qed.

Lemma wheel_without_cycles_witness :
  CycleWheel zoneWest5 1704067200000
    (appLatestCycle zoneWest5 1704067200000 (mkApp [] [] [] [] (mkSettings 28 5)))
    (mkSettings 28 5) [] = Menstruation 1.
Proof.
  exact (wheel_without_cycles (-300) 1704067200000 (mkApp [] [] [] [] (mkSettings 28 5))
           ltac:(lia) ltac:(lia) eq_refl ltac:(cbn; lia) ltac:(cbn; lia)).
Defined.

(** The first period log, saved for today's local date: at UTC and east of
    it the wheel then shows day 1; west of UTC the cycle starts the day
    before and the wheel shows day 2. *)
Theorem wheel_after_first_period_log
    (k now : Z) (st : AppState) (f : FlowIntensity) :
  -1440 <= k < 1440 -> 0 <= now ->
  valid_date (formatDateISO (fixedZone k) now) = true ->
  storedLogs st = [] -> stateCycles st = [] -> f <> Spotting ->
  2 <= avgCycleLength (stateSettings st) ->
  avgPeriodLength (stateSettings st) = 0 \/ 2 <= avgPeriodLength (stateSettings st) ->
  let st' := handleSaveLog (fixedZone k) st (mkLog (formatDateISO (fixedZone k) now) (Some f)) in
  let shift := if k <? 0 then 1 else 0 in
  wheelDaysDiff (fixedZone k) now (appLatestCycle (fixedZone k) now st') = shift /\
  CycleWheel (fixedZone k) now (appLatestCycle (fixedZone k) now st')
             (stateSettings st') (stateCycles st') = Menstruation (shift + 1).
Proof.
  intros Hk Hn _ Hl Hc Hf HL Hp. cbv zeta.
  set (d := formatDateISO (fixedZone k) now).
  assert (E : handleSaveLog (fixedZone k) st (mkLog d (Some f)) =
              mkApp [mkLog d (Some f)]
                [mkCycle (formatDateISO (fixedZone k) (Date_parse d)) None
                   (avgCycleLength (stateSettings st))]
                [mkLog d (Some f)]
                [mkCycle (formatDateISO (fixedZone k) (Date_parse d)) None
                   (avgCycleLength (stateSettings st))]
                (stateSettings st)).
  { unfold handleSaveLog. rewrite Hl, saveLog_nil. cbn [flow].
    rewrite (analyze_single (fixedZone k) (mkLog d (Some f)) _ Hf). reflexivity. }
  rewrite E. unfold appLatestCycle, CycleWheel. cbv zeta. cbn [stateCycles stateSettings].
  pose proof (Day_LocalTime_recent k now Hk Hn) as Hd.
  set (w := if k <? 0 then 1 else 0).
  assert (Hw : 0 <= w <= 1) by (unfold w; destruct (k <? 0); lia).
  assert (Hstart : JS.Day (Date_parse (formatDateISO (fixedZone k) (Date_parse d))) =
                   JS.Day (LocalTime (fixedZone k) now) - w).
  { rewrite Day_formatDateISO.
    replace (Date_parse d) with (Date_parse d + 0 * JS.msPerDay) by lia.
    rewrite Day_LocalTime_parse by exact Hk. unfold d. rewrite Day_formatDateISO. fold w. lia. }
  assert (Hdiff : wheelDaysDiff (fixedZone k) now
                    (mkCycle (formatDateISO (fixedZone k) (Date_parse d)) None
                       (avgCycleLength (stateSettings st))) = w).
  { rewrite wheelDaysDiff_fixed.
    - cbn [startDate]. rewrite Hstart. lia.
    - unfold getFullYear.
      pose proof (YearFromDay_recent (JS.Day (LocalTime (fixedZone k) now)) ltac:(lia)). lia.
    - cbn [startDate]. rewrite Day_formatDateISO in Hstart.
      rewrite formatDateISO_local. unfold toISODate. cbn [year]. rewrite Hstart.
      pose proof (YearFromDay_recent (JS.Day (LocalTime (fixedZone k) now) - w) ltac:(lia)).
      lia. }
  split; [exact Hdiff |]. rewrite Hdiff, estimator_none by reflexivity.
  apply wheelStatus_first_days; [lia | lia |].
  destruct Hp as [-> | Hp]; [cbn; lia |].
  destruct (_ =? 0) eqn:E0; [apply Z.eqb_eq in E0 |]; lia.
Qed.

Lemma wheel_after_first_period_log_witness :
  let st' := handleSaveLog zoneWest5 (mkApp [] [] [] [] (mkSettings 28 5))
               (mkLog (formatDateISO zoneWest5 1704067200000) (Some Heavy)) in
  CycleWheel zoneWest5 1704067200000 (appLatestCycle zoneWest5 1704067200000 st')
             (stateSettings st') (stateCycles st') = Menstruation 2.
Proof.
  exact (proj2 (wheel_after_first_period_log (-300) 1704067200000
           (mkApp [] [] [] [] (mkSettings 28 5)) Heavy
           ltac:(lia) ltac:(lia) ltac:(vm_compute; reflexivity) eq_refl eq_refl
           ltac:(discriminate) ltac:(cbn; lia) ltac:(right; cbn; lia))).
Defined.

(** ** The wheel and the calendar *)

Lemma wheelStatus_fertile n L p :
  wheelStatus n L p = FertileWindow -> 0 <= n /\ n + 1 <= L /\ L - 17 <= n <= L - 13.
Proof.
  unfold wheelStatus. cbv zeta.
  destruct (n <? 0) eqn:E1; [discriminate | apply Z.ltb_ge in E1].
  replace (Z.max 1 (n + 1)) with (n + 1) by lia.
  destruct (L - (n + 1) <? 0) eqn:E2; [discriminate | apply Z.ltb_ge in E2].
  destruct (n + 1 <=? p); [discriminate |].
  destruct (Z.abs (n + 1 - (L - 14)) <=? 2) eqn:E3.
  - intros _. apply Z.leb_le in E3. lia.
  - destruct (L - 14 + 2 <? n + 1); discriminate.
Qed.

Lemma predictionData_map zone c0 cs settings :
  (predictionData zone (c0 :: cs) settings).1 =
  projectFuture zone (Date_parse (startDate c0))
    (calculateSmartCycleAverage (c0 :: cs) (avgCycleLength settings))
    (if avgPeriodLength settings =? 0 then 5 else avgPeriodLength settings).
Proof. reflexivity. Qed.

Lemma CycleWheel_unfold zone today c settings cs :
  CycleWheel zone today c settings cs =
  wheelStatus (wheelDaysDiff zone today c)
    (calculateSmartCycleAverage cs (avgCycleLength settings))
    (if avgPeriodLength settings =? 0 then 5 else avgPeriodLength settings).
Proof. reflexivity. Qed.

(** At UTC and east of it, in a zone with a fixed offset: on a day on which
    the wheel shows the fertile window, the calendar has a fertile marker
    at today's date. *)
Theorem wheel_fertile_window_is_on_the_calendar
    (k today : Z) (c0 : Cycle) (cs : list Cycle) (settings : UserSettings) :
  0 <= k < 1440 -> 0 <= today ->
  valid_date (startDate c0) = true -> ~ (0 <= year (startDate c0) <= 99) ->
  CycleWheel (fixedZone k) today c0 settings (c0 :: cs) = FertileWindow ->
  exists ov,
    (predictionData (fixedZone k) (c0 :: cs) settings).1
      !! formatDateISO (fixedZone k) today = Some (mkMarker false true ov).
Proof.
  intros Hk Hn _ Hy Hw. rewrite CycleWheel_unfold in Hw.
  rewrite predictionData_map.
  revert Hw.
  generalize (calculateSmartCycleAverage (c0 :: cs) (avgCycleLength settings))
             (if avgPeriodLength settings =? 0 then 5 else avgPeriodLength settings).
  intros L p Hw.
  pose proof (Day_LocalTime_recent k today ltac:(lia) Hn) as Hd.
  assert (Hyear : ~ (0 <= getFullYear (fixedZone k) today <= 99)).
  { unfold getFullYear.
    pose proof (YearFromDay_recent (JS.Day (LocalTime (fixedZone k) today)) ltac:(lia)). lia. }
  rewrite (wheelDaysDiff_fixed k today c0 Hyear Hy) in Hw.
  apply wheelStatus_fertile in Hw as (H0 & HL & Hwin).
  pose proof (Day_formatDateISO (fixedZone k) today) as HT.
  pose proof (formatDateISO_calendar (fixedZone k) today) as HcK.
  remember (formatDateISO (fixedZone k) today) as K eqn:EK. clear EK.
  remember (JS.Day (LocalTime (fixedZone k) today)) as T eqn:ET. clear ET Hd Hyear.
  assert (Hwest : (k <? 0) = false) by (apply Z.ltb_ge; lia).
  assert (HK : K = fertileDay (fixedZone k) (Date_parse (startDate c0)) L 1
                     (T - JS.Day (Date_parse (startDate c0)) + 14 - L)).
  { apply calendar_date_by_day; [exact HcK | apply formatDateISO_calendar |].
    rewrite HT, Day_fertileDay, Hwest by lia. lia. }
  rewrite projectFuture_marks.
  destruct (applyMark_fertile (fun _ => True)
              (futureMarks (fixedZone k) (Date_parse (startDate c0)) L p) ∅ K)
    as (ov & Hov & _); [| auto | | exists ov; exact Hov].
  - intros Hin. apply elem_of_futureMarks in Hin as (c' & Hc' & [(i & Hi & E) | (o' & _ & E)]);
      [| discriminate E].
    apply MarkPeriod_inj in E. apply (f_equal (fun d => JS.Day (Date_parse d))) in E.
    rewrite HT, Day_periodDay, Hwest in E by lia.
    revert H0 HL E. generalize (JS.Day (Date_parse (startDate c0))). intros D H0 HL E. nia.
  - right. split; [apply lookup_empty |].
    exists (T - JS.Day (Date_parse (startDate c0)) + 14 - L =? 0).
    apply elem_of_futureMarks. exists 1. split; [lia |]. right.
    exists (T - JS.Day (Date_parse (startDate c0)) + 14 - L). split; [lia | f_equal; exact HK].
Qed.

Lemma wheel_fertile_window_witness :
  exists ov,
    (predictionData zoneUTC [mkCycle (mkDate 2024 1 1) None 28] (mkSettings 28 5)).1
      !! formatDateISO zoneUTC (Date_parse (mkDate 2024 1 14)) = Some (mkMarker false true ov).
Proof.
  exact (wheel_fertile_window_is_on_the_calendar 0 (Date_parse (mkDate 2024 1 14))
           (mkCycle (mkDate 2024 1 1) None 28) [] (mkSettings 28 5)
           ltac:(lia) ltac:(vm_compute; discriminate) eq_refl
           ltac:(cbn; lia) ltac:(vm_compute; reflexivity)).
Defined.

(** * The segmenter and the order of the stored logs *)

Lemma insertByTime_perm x l : insertByTime x l ≡ₚ x :: l.
Proof.
  induction l as [| y l IH]; cbn [insertByTime]; [reflexivity |].
  destruct (_ <? _); [| reflexivity]. rewrite IH. apply Permutation_swap.
Qed.

Lemma sortByTime_perm l : sortByTime l ≡ₚ l.
Proof.
  induction l as [| x l IH]; [reflexivity |].
  cbn [sortByTime foldr]. fold (sortByTime l). rewrite insertByTime_perm, IH. reflexivity.
Qed.

Lemma sorted_times l : StronglySorted byTime l -> StronglySorted Z.le (logTime <$> l).
Proof.
  induction 1 as [| x l Hl IH Hx]; [constructor |].
  rewrite fmap_cons. constructor; [exact IH |].
  apply Forall_fmap. eapply Forall_impl; [exact Hx |]. intros y Hy. exact Hy.
Qed.

(** The scan reads the dates of the logs only. *)
Lemma scan_times zone l1 l2 st :
  logTime <$> l1 = logTime <$> l2 ->
  fold_left (scanStep zone) l1 st = fold_left (scanStep zone) l2 st.
Proof.
  revert l2 st. induction l1 as [| x l1 IH]; intros [| y l2] st H; try discriminate;
    [reflexivity |].
  rewrite !fmap_cons in H. injection H as Hxy H. cbn [fold_left].
  replace (scanStep zone st y) with (scanStep zone st x); [apply IH, H |].
  unfold scanStep. unfold logTime in Hxy. rewrite Hxy. reflexivity.
Qed.

(** The cycles do not depend on the order in which the logs are stored:
    two lists with the same logs (with valid dates), in any order, give the
    same cycles. *)
Theorem segmenter_ignores_the_order_of_the_logs
    (zone : Z -> bool -> Z) (logs logs' : list DailyLog) (d : Z) :
  validDates logs -> logs ≡ₚ logs' ->
  analyzeCyclesFromLogs zone logs d = analyzeCyclesFromLogs zone logs' d.
Proof.
  intros _ Hp. rewrite !analyze_unfold.
  assert (Ht : logTime <$> sortByTime (filter isFlowLog logs) =
               logTime <$> sortByTime (filter isFlowLog logs')).
  { apply (StronglySorted_unique Z.le); try (apply sorted_times, sortByTime_sorted).
    rewrite !sortByTime_perm, Hp. reflexivity. }
  destruct (sortByTime (filter isFlowLog logs)) as [| a r],
           (sortByTime (filter isFlowLog logs')) as [| a' r']; try discriminate;
    [reflexivity |].
  rewrite !fmap_cons in Ht. injection Ht as Ha Hr.
  unfold scanFrom. rewrite Ha, (scan_times zone r r' _ Hr). reflexivity.
Qed.

Lemma segmenter_order_witness :
  analyzeCyclesFromLogs zoneUTC
    [mkLog (mkDate 2024 1 20) (Some Light); mkLog (mkDate 2024 1 1) (Some Heavy)] 28 =
  [mkCycle (mkDate 2024 1 20) None 28; mkCycle (mkDate 2024 1 1) None 19].
Proof.
  rewrite (segmenter_ignores_the_order_of_the_logs zoneUTC
             [mkLog (mkDate 2024 1 20) (Some Light); mkLog (mkDate 2024 1 1) (Some Heavy)]
             [mkLog (mkDate 2024 1 1) (Some Heavy); mkLog (mkDate 2024 1 20) (Some Light)] 28
             ltac:(repeat constructor) (Permutation_swap _ _ _)).
  vm_compute. reflexivity.
Defined.

(** * The near-duplicate of the segmenter *)

Lemma ceil_div_whole n : ceil_div (n * JS.msPerDay) (1000 * 3600 * 24) = n.
Proof.
  unfold ceil_div. change (1000 * 3600 * 24) with JS.msPerDay.
  rewrite <- Z.mul_opp_l, Z.div_mul by discriminate. lia.
Qed.

(** The near-duplicate of the segmenter on two qualifying logs, in any
    zone: up to ten days apart they stay in one cycle; eleven days or more
    apart they give two cycles, the closed one as long as the gap in days
    (the ceiling changes nothing for whole days).  Its threshold is ten
    days where the segmenter of [dateUtils.ts] has seven. *)
Theorem duplicate_segmenter_two_logs
    (zone : Z -> bool -> Z) (a b : DailyLog) (d : Z) :
  valid_date (date a) = true -> valid_date (date b) = true ->
  isFlowLog a -> isFlowLog b ->
  let gap := diffDaysBetween (date a) (date b) in
  0 <= gap ->
  (gap <= 10 ->
     Duplicate.analyzeCyclesFromLogs zone [a; b] d =
     [mkCycle (formatDateISO zone (Date_parse (date a))) None d]) /\
  (11 <= gap ->
     Duplicate.analyzeCyclesFromLogs zone [a; b] d =
     [mkCycle (formatDateISO zone (Date_parse (date b))) None d;
      mkCycle (formatDateISO zone (Date_parse (date a))) None gap]).
Proof.
  intros _ _ Ha Hb gap Hgap. unfold gap in *. clear gap.
  rewrite diffDaysBetween_days in *.
  pose proof (Date_parse_difference (date a) (date b)) as Hdiff.
  set (g := JS.Day (Date_parse (date b)) - JS.Day (Date_parse (date a))) in *.
  assert (Hs : sortByTime (filter isFlowLog [a; b]) = [a; b]).
  { rewrite filter_all_flow by (repeat constructor; assumption).
    apply sortByTime_of_sorted. repeat constructor. unfold byTime, logTime.
    unfold JS.msPerDay in Hdiff. lia. }
  unfold Duplicate.analyzeCyclesFromLogs. cbv zeta. rewrite Hs.
  cbn [fold_left]. unfold Duplicate.scanStep. cbv zeta.
  cbn [lastFlowLogDate currentCycleStart cycles]. rewrite Hdiff.
  split; intros Hg.
  - replace (10 * (1000 * 3600 * 24) <? g * JS.msPerDay) with false
      by (symmetry; apply Z.ltb_ge; unfold JS.msPerDay; lia).
    reflexivity.
  - replace (10 * (1000 * 3600 * 24) <? g * JS.msPerDay) with true
      by (symmetry; apply Z.ltb_lt; unfold JS.msPerDay; lia).
    cbn [cycles currentCycleStart app rev]. rewrite ceil_div_whole. reflexivity.
Qed.

Lemma duplicate_segmenter_two_logs_witness :
  Duplicate.analyzeCyclesFromLogs zoneUTC
    [mkLog (mkDate 2024 1 1) (Some Medium); mkLog (mkDate 2024 1 9) (Some Medium)] 28 =
  [mkCycle (formatDateISO zoneUTC (Date_parse (mkDate 2024 1 1))) None 28].
Proof.
  apply (proj1 (duplicate_segmenter_two_logs zoneUTC
           (mkLog (mkDate 2024 1 1) (Some Medium)) (mkLog (mkDate 2024 1 9) (Some Medium)) 28
           eq_refl eq_refl ltac:(cbn; discriminate) ltac:(cbn; discriminate)
           ltac:(vm_compute; discriminate))).
  vm_compute. discriminate.
Defined.

(** * The calendar grid *)

Lemma Day_of_month_day yr m d :
  JS.Day (Date_parse (mkDate yr (m + 1) d)) = JS.MakeDay yr m 1 + (d - 1).
Proof.
  rewrite Day_Date_parse. cbn [year month day].
  replace (m + 1 - 1) with m by lia.
  rewrite <- MakeDay_date_shift. f_equal. lia.
Qed.

(** The month grid in a zone with a fixed offset: the button of day [d] of
    the month stands in slot [firstDay + d - 1], carries the date of that
    day, and its column (the slot modulo 7) is the weekday of that date.
    The grid has no more than 37 slots. *)
Theorem calendarGrid_puts_each_day_under_its_weekday
    (k : Z) (logs : list DailyLog) (map : gmap ISODate Marker)
    (selectedDate : ISODate) (now y m d : Z) :
  0 <= m <= 11 -> 1 <= d <= daysInMonth (centuryYear y) (m + 1) ->
  let grid := calendarGrid (fixedZone k) logs map selectedDate now y m in
  let slot := getFirstDayOfMonth (fixedZone k) y m + d - 1 in
  let cell := calendarCell (fixedZone k) logs map selectedDate now y m d in
  grid !! Z.to_nat slot = Some (Some cell) /\
  cellDate cell = mkDate (centuryYear y) (m + 1) d /\
  slot mod 7 = JS.WeekDay (JS.Day (Date_parse (cellDate cell))) /\
  (List.length grid <= 37)%nat.
Proof.
  intros Hm Hd. cbv zeta.
  pose proof (WeekDay_range (JS.MakeDay (centuryYear y) m 1)) as B.
  pose proof (daysInMonth_range (centuryYear y) (m + 1)) as R.
  assert (Hdate : cellDate (calendarCell (fixedZone k) logs map selectedDate now y m d) =
                  mkDate (centuryYear y) (m + 1) d).
  { unfold calendarCell. cbv zeta. cbn [cellDate].
    apply formatDateISO_Date_local. unfold calendar_date. cbn [year month day]. lia. }
  unfold calendarGrid. cbv zeta.
  rewrite getFirstDayOfMonth_fixed, getDaysInMonth_fixed by exact Hm.
  set (first := JS.WeekDay (JS.MakeDay (centuryYear y) m 1)) in *.
  repeat match goal with |- _ /\ _ => split end.
  - rewrite lookup_app_r; rewrite length_replicate; [| lia].
    rewrite list_lookup_fmap.
    replace (Z.to_nat (first + d - 1) - Z.to_nat first)%nat with (Z.to_nat (d - 1)) by lia.
    rewrite lookup_seqZ_lt by lia. cbn [fmap option_fmap option_map].
    rewrite Z2Nat.id by lia. replace (1 + (d - 1)) with d by lia. reflexivity.
  - exact Hdate.
  - rewrite Hdate, Day_of_month_day. unfold first, JS.WeekDay.
    rewrite <- Z.add_sub_assoc, Z.add_mod_idemp_l by lia. f_equal. lia.
  - rewrite length_app, length_replicate, length_fmap, length_seqZ. lia.
Qed.

Lemma calendarGrid_witness :
  calendarGrid zoneWest5 [] ∅ (mkDate 2024 2 1) 0 2024 1 !! 32%nat =
  Some (Some (calendarCell zoneWest5 [] ∅ (mkDate 2024 2 1) 0 2024 1 29)).
Proof.
  exact (proj1 (calendarGrid_puts_each_day_under_its_weekday (-300) [] ∅ (mkDate 2024 2 1)
                  0 2024 1 29 ltac:(lia) ltac:(vm_compute; split; discriminate))).
Defined.

(** A saved log shows on the button of its own date, in any zone with a
    fixed offset: with period flow the button is a logged period day
    whatever the projection says, and has no dot; without flow or with
    spotting the button has the dot and is never a logged period day. *)
Theorem calendar_shows_the_saved_log
    (k : Z) (logs : list DailyLog) (log : DailyLog) (map : gmap ISODate Marker)
    (selectedDate : ISODate) (now y m d : Z) :
  calendar_date (mkDate (centuryYear y) (m + 1) d) ->
  date log = mkDate (centuryYear y) (m + 1) d ->
  let cell := calendarCell (fixedZone k) (saveLog logs log) map selectedDate now y m d in
  (isFlowLog log -> cellStyle cell = LoggedPeriod /\ cellDot cell = false) /\
  (~ isFlowLog log -> cellStyle cell <> LoggedPeriod /\ cellDot cell = true).
Proof.
  intros Hc Hdate. cbv zeta. unfold calendarCell. cbv zeta.
  rewrite (formatDateISO_Date_local k y m d Hc), <- Hdate.
  rewrite (findLog_saved logs log). cbn [from_option cellStyle cellDot].
  rewrite (bool_decide_true (is_Some (Some log))) by (exists log; reflexivity).
  split; intros Hf.
  - rewrite bool_decide_true by exact Hf. split; reflexivity.
  - rewrite bool_decide_false by exact Hf. cbn [negb andb]. split; [| reflexivity].
    destruct (from_option isProjectedPeriod false (map !! date log) && true);
      [discriminate |].
    destruct (from_option isOvulationDay false (map !! date log)); [discriminate |].
    destruct (from_option isFertile false (map !! date log)); discriminate.
Qed.

Lemma calendar_shows_the_saved_log_witness :
  cellStyle (calendarCell zoneWest5
               (saveLog [mkLog (mkDate 2024 2 29) None] (mkLog (mkDate 2024 2 29) (Some Heavy)))
               ∅ (mkDate 2024 2 1) 0 2024 1 29) = LoggedPeriod.
Proof.
  apply (proj1 (calendar_shows_the_saved_log (-300) [mkLog (mkDate 2024 2 29) None]
                  (mkLog (mkDate 2024 2 29) (Some Heavy)) ∅ (mkDate 2024 2 1) 0 2024 1 29
                  ltac:(vm_compute; intuition discriminate) eq_refl)).
  cbn. discriminate.
Defined.
